(** * log-to-gor: access-log lines to GoReplay records

    A shallow embedding of [log-to-gor.go] (functions [main], [processLogs]
    and [generateRequestID]) together with the parts of the Go standard library
    that the functions run through: [bufio.Scanner] with [bufio.ScanLines],
    the two regular expressions compiled with [regexp.MustCompile],
    [time.Parse] for the layout [02/Jan/2006:15:04:05], [Time.UnixNano],
    [hex.EncodeToString] and the [%s]/[%d] verbs of [fmt.Fprintf].

    Go strings are byte strings; they are modelled by [string], one [ascii]
    per byte.  [int], 64 bits wide, and [int64] are modelled by [Z] with
    the two's complement wrap-around written out ([wrap64]).  The imported
    access-log parser, the writer and the random source are parameters of
    [processLogs]; the files that [main] opens and creates are given by a
    record of the calls it makes on the operating system. *)

From Stdlib Require Import String Ascii List ZArith Lia Bool Arith.
Import ListNotations.

Local Open Scope string_scope.
Local Open Scope Z_scope.

(** ** Bytes and byte strings *)

Definition byte_of (n : nat) : ascii := ascii_of_nat n.

Definition dquote : ascii := byte_of 34.
Definition space : ascii := byte_of 32.
Definition LF : ascii := byte_of 10.
Definition CR : ascii := byte_of 13.
Definition rbracket : ascii := byte_of 93.
Definition lbracket : ascii := byte_of 91.

Definition str1 (c : ascii) : string := String c EmptyString.

(** [s[0:n]] for [n <= len(s)]. *)
Fixpoint take (n : nat) (s : string) : string :=
  match n, s with
  | S n', String c s' => String c (take n' s')
  | _, _ => EmptyString
  end.

(** [s[n:]] for [n <= len(s)]. *)
Fixpoint drop (n : nat) (s : string) : string :=
  match n, s with
  | S n', String _ s' => drop n' s'
  | _, _ => s
  end.

Fixpoint forallb_str (f : ascii -> bool) (s : string) : bool :=
  match s with
  | EmptyString => true
  | String c s' => f c && forallb_str f s'
  end.

Definition is_empty (s : string) : bool :=
  match s with EmptyString => true | _ => false end.

(** ** Regular expressions (package [regexp])

    The syntax covers the operators that occur in the two patterns of
    [processLogs].  Matching is the leftmost-first (backtracking priority)
    discipline of Go's [regexp]: alternatives are tried left to right, [+]
    is greedy, and the search reports the match that starts leftmost.
    The input is matched byte by byte: the literals of the two patterns are
    ASCII and their classes are ASCII classes or the complement of one
    ASCII byte, so that a match over the runes of the input covers the same
    bytes. *)

Inductive cset : Type :=
| CNot (c : ascii)    (* [^c] *)
| CDigit              (* \d  *)
| CWord.              (* \w  *)

Definition is_digit (c : ascii) : bool :=
  let n := nat_of_ascii c in (48 <=? n)%nat && (n <=? 57)%nat.

Definition is_upper (c : ascii) : bool :=
  let n := nat_of_ascii c in (65 <=? n)%nat && (n <=? 90)%nat.

Definition is_lower (c : ascii) : bool :=
  let n := nat_of_ascii c in (97 <=? n)%nat && (n <=? 122)%nat.

Definition cset_mem (cs : cset) (c : ascii) : bool :=
  match cs with
  | CNot x => negb (Ascii.eqb c x)
  | CDigit => is_digit c
  | CWord => is_digit c || is_upper c || is_lower c || Ascii.eqb c (byte_of 95)
  end.

Inductive regex : Type :=
| REmpty
| RChar (c : ascii)
| RSet (cs : cset)
| RCat (r1 r2 : regex)
| RAlt (r1 r2 : regex)
| RPlus (r : regex)
| RRep (n : nat) (r : regex)
| RGroup (i : nat) (r : regex).

(** A literal string is the concatenation of its bytes. *)
Fixpoint RLit (s : string) : regex :=
  match s with
  | EmptyString => REmpty
  | String c s' => RCat (RChar c) (RLit s')
  end.

Fixpoint RSeq (rs : list regex) : regex :=
  match rs with
  | [] => REmpty
  | [r] => r
  | r :: rs' => RCat r (RSeq rs')
  end.

Fixpoint RAlts (rs : list regex) : regex :=
  match rs with
  | [] => REmpty
  | [r] => r
  | r :: rs' => RAlt r (RAlts rs')
  end.

(** Text captured by each group, most recent binding first. *)
Definition captures := list (nat * string).

Fixpoint capture (i : nat) (cs : captures) : string :=
  match cs with
  | [] => EmptyString
  | (j, s) :: cs' => if Nat.eqb i j then s else capture i cs'
  end.

Definition orElse {A : Type} (x y : option A) : option A :=
  match x with Some _ => x | None => y end.

Section Matcher.
Context {A : Type}.

Definition cont : Type := string -> captures -> option A.

(** Greedy iteration of a matcher [m1]: after one match of [m1] try
    another round first and the continuation second.  A round that
    consumes nothing ends the iteration, so [String.length] of the input
    is enough fuel. *)
Fixpoint plus_loop (m1 : string -> captures -> cont -> option A) (k : cont)
         (fuel : nat) (s0 : string) (cs0 : captures) {struct fuel}
  : option A :=
  m1 s0 cs0
    (fun s' cs' =>
       match fuel with
       | O => k s' cs'
       | S fuel' =>
           if (String.length s' <? String.length s0)%nat
           then orElse (plus_loop m1 k fuel' s' cs') (k s' cs')
           else k s' cs'
       end).

(** [rmatch r s cs k]: match [r] at the front of [s]; on success hand the
    rest of the input and the captures to the continuation [k]; when [k]
    fails, backtrack into [r]. *)
Fixpoint rmatch (r : regex) (s : string) (cs : captures) (k : cont)
         {struct r} : option A :=
  match r with
  | REmpty => k s cs
  | RChar c =>
      match s with
      | String c' s' => if Ascii.eqb c' c then k s' cs else None
      | EmptyString => None
      end
  | RSet f =>
      match s with
      | String c' s' => if cset_mem f c' then k s' cs else None
      | EmptyString => None
      end
  | RCat r1 r2 => rmatch r1 s cs (fun s' cs' => rmatch r2 s' cs' k)
  | RAlt r1 r2 => orElse (rmatch r1 s cs k) (rmatch r2 s cs k)
  | RPlus r1 => plus_loop (rmatch r1) k (String.length s) s cs
  | RRep n r1 =>
      Nat.iter n (fun k' s' cs' => rmatch r1 s' cs' k') k s cs
  | RGroup i r1 =>
      rmatch r1 s cs
        (fun s' cs' =>
           k s' ((i, take (String.length s - String.length s') s) :: cs'))
  end.
End Matcher.

Definition match_here (r : regex) (s : string) : option (string * captures) :=
  rmatch r s [] (fun s' cs => Some (s', cs)).

(** Leftmost match: the first start position at which [r] matches. *)
Fixpoint search (r : regex) (s : string) : option (string * captures) :=
  match match_here r s with
  | Some (s', cs) => Some (take (String.length s - String.length s') s, cs)
  | None =>
      match s with
      | EmptyString => None
      | String _ s' => search r s'
      end
  end.

(** A compiled pattern: its syntax tree and its number of groups. *)
Record Regexp : Type := MustCompile { expr : regex; NumSubexp : nat }.

(** [re.FindStringSubmatch(s)]: the nil slice when there is no match,
    otherwise the whole match followed by the text of each group. *)
Definition FindStringSubmatch (re : Regexp) (s : string) : list string :=
  match search (expr re) s with
  | None => []
  | Some (whole, cs) =>
      whole :: map (fun i => capture i cs) (seq 1 (NumSubexp re))
  end.

(** The request-line pattern of [processLogs], with the double quote
    written \x22:
    [\x22(GET|POST|PUT|DELETE|HEAD|OPTIONS|PATCH) ([^ ]+) ([^\x22]+)\x22] *)
Definition methods : list string :=
  ["GET"; "POST"; "PUT"; "DELETE"; "HEAD"; "OPTIONS"; "PATCH"].

Definition re : Regexp :=
  MustCompile
    (RSeq [ RChar dquote;
            RGroup 1 (RAlts (map RLit methods));
            RChar space;
            RGroup 2 (RPlus (RSet (CNot space)));
            RChar space;
            RGroup 3 (RPlus (RSet (CNot dquote)));
            RChar dquote ])
    3.

(** The timestamp pattern of [processLogs]:
    [\[(\d{2}/\w{3}/\d{4}:\d{2}:\d{2}:\d{2}) [^\]]+\]] *)
Definition datetimeRe : regex :=
  RSeq [ RRep 2 (RSet CDigit); RChar "/";
         RRep 3 (RSet CWord); RChar "/";
         RRep 4 (RSet CDigit); RChar ":";
         RRep 2 (RSet CDigit); RChar ":";
         RRep 2 (RSet CDigit); RChar ":";
         RRep 2 (RSet CDigit) ].

Definition timeRe : Regexp :=
  MustCompile
    (RSeq [ RChar lbracket;
            RGroup 1 datetimeRe;
            RChar space;
            RPlus (RSet (CNot rbracket));
            RChar rbracket ])
    1.

(** ** Timestamps (package [time])

    [time.Parse] specialised to the layout [02/Jan/2006:15:04:05], whose
    chunks are: zero-padded day, [/], short month name, [/], four-digit
    year, [:], hour, [:], zero-padded minute, [:], zero-padded second.
    The layout has no zone, so the result is a UTC time. *)

Definition wrap64 (z : Z) : Z := (z + 2 ^ 63) mod 2 ^ 64 - 2 ^ 63.

Definition digit_val (c : ascii) : Z := Z.of_nat (nat_of_ascii c) - 48.

Definition isDigit (s : string) (i : nat) : bool :=
  match String.get i s with
  | Some c => is_digit c
  | None => false
  end.

(** [getnum]: one or two leading digits; two are required when [fixed]. *)
Definition getnum (s : string) (fixed : bool) : option (Z * string) :=
  match s with
  | String c0 s1 =>
      if is_digit c0 then
        match s1 with
        | String c1 s2 =>
            if is_digit c1
            then Some (digit_val c0 * 10 + digit_val c1, s2)
            else if fixed then None else Some (digit_val c0, s1)
        | EmptyString => if fixed then None else Some (digit_val c0, s1)
        end
      else None
  | EmptyString => None
  end.

(** [atoi] on a string of digits. *)
Fixpoint atoi_digits (acc : Z) (s : string) : option Z :=
  match s with
  | EmptyString => Some acc
  | String c s' =>
      if is_digit c then atoi_digits (acc * 10 + digit_val c) s' else None
  end.

Definition shortMonthNames : list string :=
  ["Jan"; "Feb"; "Mar"; "Apr"; "May"; "Jun";
   "Jul"; "Aug"; "Sep"; "Oct"; "Nov"; "Dec"].

(** [match]: equality of two strings of the same length up to the case of
    ASCII letters. *)
Fixpoint match_fold (s1 s2 : string) : bool :=
  match s1, s2 with
  | String c1 t1, String c2 t2 =>
      (if Ascii.eqb c1 c2 then true
       else
         let l1 := N.lor (N_of_ascii c1) 32 in
         let l2 := N.lor (N_of_ascii c2) 32 in
         (l1 =? l2)%N && (97 <=? l1)%N && (l1 <=? 122)%N)
      && match_fold t1 t2
  | EmptyString, _ => true
  | _, EmptyString => false
  end.

(** [lookup]: index of the first table entry that is a prefix of [val]
    up to case, and the rest of [val]. *)
Fixpoint lookup_from (i : Z) (tab : list string) (val : string)
  : option (Z * string) :=
  match tab with
  | [] => None
  | v :: tab' =>
      if (String.length v <=? String.length val)%nat
         && match_fold (take (String.length v) val) v
      then Some (i, drop (String.length v) val)
      else lookup_from (i + 1) tab' val
  end.

Definition lookup (tab : list string) (val : string) : option (Z * string) :=
  lookup_from 0 tab val.

(** A literal chunk of the layout must be a prefix of the value. *)
Definition skip (value : string) (c : ascii) : option string :=
  match value with
  | String c' value' => if Ascii.eqb c' c then Some value' else None
  | EmptyString => None
  end.

Definition isLeap (year : Z) : bool :=
  (year mod 4 =? 0) && (negb (year mod 100 =? 0) || (year mod 400 =? 0)).

Definition daysBefore : list Z :=
  [0; 31; 59; 90; 120; 151; 181; 212; 243; 273; 304; 334; 365].

Definition daysIn (month year : Z) : Z :=
  if (month =? 2) && isLeap year then 29
  else nth (Z.to_nat month) daysBefore 0
       - nth (Z.to_nat (month - 1)) daysBefore 0.

(** Days from 1970-01-01 to January 1 of [year] (proleptic Gregorian). *)
Definition daysSinceEpoch (year : Z) : Z :=
  let leaps y := y / 4 - y / 100 + y / 400 in
  365 * (year - 1970) + (leaps (year - 1) - leaps 1969).

(** Seconds since the Unix epoch of a normalised UTC date:
    [time.Date(year, month, day, hour, min, sec, 0, time.UTC).Unix()]. *)
Definition unixSec (year month day hour min sec : Z) : Z :=
  let d := daysSinceEpoch year
           + nth (Z.to_nat (month - 1)) daysBefore 0
           + (if isLeap year && (3 <=? month) then 1 else 0)
           + (day - 1) in
  d * 86400 + hour * 3600 + min * 60 + sec.

Definition in_range (lo x hi : Z) : bool := (lo <=? x) && (x <? hi).

Definition bind {A B : Type} (x : option A) (f : A -> option B) : option B :=
  match x with Some a => f a | None => None end.

Notation "x <- e ;; k" := (bind e (fun x => k))
  (at level 61, e at next level, right associativity).
Notation "' p <- e ;; k" := (bind e (fun p => k))
  (at level 61, p pattern, e at next level, right associativity).

Definition guard (b : bool) : option unit := if b then Some tt else None.

(** [time.Parse] with the layout above, followed by [UnixNano()], on a
    value without fractional seconds (the timestamp pattern admits none);
    [None] stands for a non-nil parse error. *)
Definition parseUnixNano (value : string) : option Z :=
  '(day, value) <- getnum value true ;;
  value <- skip value "/" ;;
  '(month0, value) <- lookup shortMonthNames value ;;
  let month := month0 + 1 in
  value <- skip value "/" ;;
  _ <- guard ((4 <=? String.length value)%nat && isDigit value 0) ;;
  year <- atoi_digits 0 (take 4 value) ;;
  let value := drop 4 value in
  value <- skip value ":" ;;
  '(hour, value) <- getnum value false ;;
  _ <- guard (in_range 0 hour 24) ;;
  value <- skip value ":" ;;
  '(min, value) <- getnum value true ;;
  _ <- guard (in_range 0 min 60) ;;
  value <- skip value ":" ;;
  '(sec, value) <- getnum value true ;;
  _ <- guard (in_range 0 sec 60) ;;
  _ <- guard (is_empty value) ;;
  _ <- guard ((1 <=? day) && (day <=? daysIn month year)) ;;
  Some (wrap64 (unixSec year month day hour min sec * 1000000000)).

(** ** Formatting ([fmt] and [encoding/hex]) *)

Definition digit_char (d : Z) : ascii := ascii_of_nat (48 + Z.to_nat d).

Fixpoint fmt_digits (fuel : nat) (n : Z) (acc : string) : string :=
  let acc' := String (digit_char (n mod 10)) acc in
  match fuel with
  | O => acc'
  | S fuel' => if n <? 10 then acc' else fmt_digits fuel' (n / 10) acc'
  end.

(** The verb [%d] applied to an integer. *)
Definition fmt_d (z : Z) : string :=
  let a := Z.abs z in
  let ds := fmt_digits (Z.to_nat (Z.log2 a)) a EmptyString in
  if z <? 0 then String "-" ds else ds.

Definition hextable : string := "0123456789abcdef".

Definition hex_digit (n : nat) : ascii :=
  match String.get n hextable with
  | Some c => c
  | None => "0"%char
  end.

(** [hex.EncodeToString]: two characters per byte, high nibble first. *)
Fixpoint EncodeToString (src : list ascii) : string :=
  match src with
  | [] => EmptyString
  | v :: src' =>
      String (hex_digit (nat_of_ascii v / 16))
        (String (hex_digit (nat_of_ascii v mod 16)) (EncodeToString src'))
  end.

(** ** Errors *)

Inductive error : Type :=
| ErrNew (msg : string)                   (* errors.New(msg), or an error of the environment *)
| ErrWrap (prefix : string) (e : error).  (* fmt.Errorf(prefix + ": %w", e) *)

Fixpoint Error (e : error) : string :=
  match e with
  | ErrNew msg => msg
  | ErrWrap prefix e' => prefix ++ ": " ++ Error e'
  end.

(** ** Line scanning (package [bufio])

    A reader delivers [data] through successive [Read] calls and then
    reports [io.EOF] ([read_err = None]) or an error, with a final call
    that returns no bytes, as [os.File] does. *)

Record Reader : Type := mkReader { data : string; read_err : option error }.

Definition MaxScanTokenSize : nat := 64 * 1024.

Definition ErrTooLong : error := ErrNew "bufio.Scanner: token too long".

Fixpoint dropCR (s : string) : string :=
  match s with
  | EmptyString => EmptyString
  | String c EmptyString => if Ascii.eqb c CR then EmptyString else s
  | String c s' => String c (dropCR s')
  end.

(** The tokens that [Scan] yields with the split function [ScanLines]:
    [cur] holds the bytes of the line being buffered.  A line ends at a
    line feed; a final line without line feed is a token when it is not
    empty; a buffer of [MaxScanTokenSize] bytes without a line feed stops
    the scan with [ErrTooLong]. *)
Fixpoint scan_lines (cur s : string) : list string * option error :=
  match s with
  | EmptyString =>
      (if is_empty cur then [] else [dropCR cur], None)
  | String c s' =>
      if Ascii.eqb c LF then
        let (ls, e) := scan_lines EmptyString s' in (dropCR cur :: ls, e)
      else if (MaxScanTokenSize <=? String.length cur + 1)%nat then
        ([], Some ErrTooLong)
      else scan_lines (cur ++ str1 c) s'
  end.

(** The lines seen by the loop [for scanner.Scan()] and the value of
    [scanner.Err()] after it. *)
Record Scanner : Type := mkScanner { tokens : list string; Err : option error }.

Definition NewScanner (r : Reader) : Scanner :=
  let (ls, e) := scan_lines EmptyString (data r) in
  mkScanner ls (match e with Some _ => e | None => read_err r end).

(** ** The environment of [processLogs] *)

(** [parser.Result]: the fields that [processLogs] reads. *)
Record Result : Type := mkResult { Matched : Z; Errors : list string }.

(** [*parser.RegexParser], a value of the imported access-log parser:
    [ParseString] returns a result and an error. *)
Record RegexParser : Type :=
  mkParser { ParseString : string -> Result * option error }.

(** [io.Writer]: the outcome of the [i]-th call of [Write]: [None] when all
    bytes were written, [Some (n, e)] when [n] bytes were written and the
    call returned the error [e]. *)
Definition Writer : Type := nat -> option (nat * error).

(** [crypto/rand]: the outcome of the [i]-th call of [rand.Read]: an error,
    or a filling [g] of the slice (byte [j] of the slice is [g j]). *)
Definition RandSource : Type := nat -> error + (nat -> ascii).

(** The delimiter used by goreplay to separate payloads. *)
Definition gorPayloadDelimiter : string := "🐵🙈🙉".

(** ** Patterns byte by byte *)

Inductive atom : Type :=
| AChar (c : ascii)
| ASet (f : cset).

Definition atom_ok (a : atom) (c : ascii) : bool :=
  match a with
  | AChar x => Ascii.eqb c x
  | ASet f => cset_mem f c
  end.

Definition atom_regex (a : atom) : regex :=
  match a with
  | AChar c => RChar c
  | ASet f => RSet f
  end.

Fixpoint RAtoms (pat : list atom) : regex :=
  match pat with
  | [] => REmpty
  | a :: pat' => RCat (atom_regex a) (RAtoms pat')
  end.

(** The bytes of [s] fit the atoms of [pat] one by one; the rest of [s]. *)
Fixpoint match_atoms (pat : list atom) (s : string) : option string :=
  match pat with
  | [] => Some s
  | a :: pat' =>
      match s with
      | String c s' => if atom_ok a c then match_atoms pat' s' else None
      | EmptyString => None
      end
  end.

(** [dd/Mon/yyyy:HH:MM:SS] byte by byte. *)
Definition datetime_atoms : list atom :=
  let d := ASet CDigit in
  let w := ASet CWord in
  [d; d; AChar "/"; w; w; w; AChar "/"; d; d; d; d; AChar ":";
   d; d; AChar ":"; d; d; AChar ":"; d; d].

(** ** The record framing of the specification *)

Definition is_lower_hex (c : ascii) : bool :=
  is_digit c || (let n := nat_of_ascii c in (97 <=? n)%nat && (n <=? 102)%nat).

(** The value of a lower-case hexadecimal digit. *)
Definition hex_value (c : ascii) : option nat :=
  let n := nat_of_ascii c in
  if is_digit c then Some (n - 48)%nat
  else if (97 <=? n)%nat && (n <=? 102)%nat then Some (n - 87)%nat
  else None.

(** A hexadecimal text read back: two digits per byte, the high one first. *)
Fixpoint hex_bytes (s : string) : option (list ascii) :=
  match s with
  | EmptyString => Some []
  | String hi (String lo s') =>
      match hex_value hi, hex_value lo, hex_bytes s' with
      | Some h, Some l, Some bs => Some (ascii_of_nat (16 * h + l) :: bs)
      | _, _, _ => None
      end
  | String _ EmptyString => None
  end.

(** Header line: [1 <requestID> <timestampNanos> 0] and a line feed. *)
Definition header_line (reqID : string) (timestampNanos : Z) : string :=
  "1 " ++ reqID ++ " " ++ fmt_d timestampNanos ++ " 0" ++ str1 LF.

(** Request line segment: the request line, CR LF CR LF and a line feed. *)
Definition request_segment (requestLine : string) : string :=
  requestLine ++ String CR (String LF (String CR (String LF (str1 LF)))).

Definition delimiter_line : string := gorPayloadDelimiter ++ str1 LF.

Definition record (reqID : string) (timestampNanos : Z) (requestLine : string)
  : list string :=
  [header_line reqID timestampNanos; request_segment requestLine; delimiter_line].

(** [utf8.AppendRune] for a code point (surrogates aside). *)
Definition EncodeRune (r : Z) : list Z :=
  if r <=? 127 then [r]
  else if r <=? 2047 then
    [Z.lor 192 (Z.shiftr r 6); Z.lor 128 (Z.land r 63)]
  else if r <=? 65535 then
    [Z.lor 224 (Z.shiftr r 12); Z.lor 128 (Z.land (Z.shiftr r 6) 63);
     Z.lor 128 (Z.land r 63)]
  else
    [Z.lor 240 (Z.shiftr r 18); Z.lor 128 (Z.land (Z.shiftr r 12) 63);
     Z.lor 128 (Z.land (Z.shiftr r 6) 63); Z.lor 128 (Z.land r 63)].

Definition utf8 (runes : list Z) : string :=
  string_of_list_ascii
    (map (fun b => byte_of (Z.to_nat b)) (flat_map EncodeRune runes)).

(** The byte stream on the writer: the chunks of the [Write] calls in order. *)
Definition stream (chunks : list string) : string :=
  fold_right append EmptyString chunks.

(** The lines of a byte stream: the pieces that end at a line feed, and a
    last piece without line feed when it is not empty. *)
Fixpoint lines_of (cur s : string) : list string :=
  match s with
  | EmptyString => if is_empty cur then [] else [cur]
  | String c s' =>
      if Ascii.eqb c LF then cur :: lines_of EmptyString s'
      else lines_of (cur ++ str1 c) s'
  end.

Definition delimiter_lines (output : string) : nat :=
  count_occ string_dec (lines_of EmptyString output) gorPayloadDelimiter.

(** Two chunks that are equal, or are the same prefix of two header lines
    that differ in the request identifier only. *)
Definition same_but_id (c1 c2 : string) : Prop :=
  c1 = c2 \/
  exists id1 id2 ts n,
    String.length id1 = 24%nat /\ String.length id2 = 24%nat /\
    c1 = take n (header_line id1 ts) /\ c2 = take n (header_line id2 ts).

Definition failed {E T : Type} (x : E + T) : bool :=
  match x with inl _ => true | inr _ => false end.

(** ** [processLogs] *)

Record State : Type := mkState {
  processedCount : Z;      (* the local variable of processLogs *)
  out : list string;       (* the bytes put on [w], one entry per Write call *)
  rand_calls : nat         (* number of calls of rand.Read so far *)
}.

Definition init : State := mkState 0 [] 0.

Section ProcessLogs.
Variable w : Writer.
Variable p : RegexParser.
Variable rnd : RandSource.

(** The identifier made of the twelve bytes [g 0 .. g 11]. *)
Definition reqID_of (g : nat -> ascii) : string :=
  EncodeToString (map g (seq 0 12)).

(** [generateRequestID]: twelve random bytes, hex encoded. *)
Definition generateRequestID (st : State) : State * (error + string) :=
  let st' := mkState (processedCount st) (out st) (S (rand_calls st)) in
  match rnd (rand_calls st) with
  | inl e => (st', inl e)
  | inr g => (st', inr (reqID_of g))
  end.

(** One call [fmt.Fprintf(w, ...)] whose formatted text is [text]. *)
Definition Fprintf (st : State) (text : string) : State * option error :=
  match w (List.length (out st)) with
  | None =>
      (mkState (processedCount st) (out st ++ [text]) (rand_calls st), None)
  | Some (n, e) =>
      (mkState (processedCount st) (out st ++ [take n text]) (rand_calls st),
       Some e)
  end.

(** The parser gate: [err != nil || len(entry.Errors) > 0 || entry.Matched == 0]. *)
Definition rejected (line : string) : bool :=
  let (entry, err) := ParseString p line in
  match err with
  | Some _ => true
  | None => negb (Nat.eqb (List.length (Errors entry)) 0) || (Matched entry =? 0)
  end.

(** The request line [METHOD PATH PROTOCOL] when the pattern matches. *)
Definition requestLineOf (line : string) : option string :=
  let matches := FindStringSubmatch re line in
  if Nat.eqb (List.length matches) 4
  then Some (nth 1 matches EmptyString ++ " " ++ nth 2 matches EmptyString
             ++ " " ++ nth 3 matches EmptyString)
  else None.

(** The variable [timestamp] after the timestamp block. *)
Definition timestampOf (line : string) : Z :=
  let timeMatch := FindStringSubmatch timeRe line in
  if Nat.eqb (List.length timeMatch) 2 then
    match parseUnixNano (nth 1 timeMatch EmptyString) with
    | Some t => t
    | None => 0
    end
  else 0.

(** The result of one iteration of the loop.  The diagnostics printed with
    [log.Printf] go to the standard logger; they are not part of the
    state. *)
Inductive Step : Type :=
| Continue (st : State)                (* go on with the next line *)
| Return (st : State) (err : error).   (* return processedCount, err *)

Definition body (st : State) (line : string) : Step :=
  if is_empty line then Continue st
  else if rejected line then Continue st
  else
    match requestLineOf line with
    | None => Continue st
    | Some requestLine =>
        let timestamp := timestampOf line in
        match generateRequestID st with
        | (st, inl _) => Continue st
        | (st, inr reqID) =>
            let reqType := "1" in
            let latency := 0 in
            match Fprintf st (reqType ++ " " ++ reqID ++ " "
                              ++ fmt_d timestamp ++ " " ++ fmt_d latency
                              ++ str1 LF) with
            | (st, Some err) => Return st (ErrWrap "failed to write header" err)
            | (st, None) =>
                match Fprintf st (requestLine ++ str1 CR ++ str1 LF
                                  ++ str1 CR ++ str1 LF ++ str1 LF) with
                | (st, Some err) =>
                    Return st (ErrWrap "failed to write request line" err)
                | (st, None) =>
                    match Fprintf st (gorPayloadDelimiter ++ str1 LF) with
                    | (st, Some err) =>
                        Return st (ErrWrap "failed to write delimiter" err)
                    | (st, None) =>
                        Continue (mkState (wrap64 (processedCount st + 1))
                                          (out st) (rand_calls st))
                    end
                end
            end
        end
    end.

Definition segment_error (j : nat) : string :=
  nth j ["failed to write header"; "failed to write request line";
         "failed to write delimiter"] EmptyString.

(** What one iteration does, case by case: the relational reading of
    [body]. *)
Inductive iteration (st : State) (line : string) : Step -> Prop :=
| it_empty :
    line = EmptyString -> iteration st line (Continue st)
| it_rejected :
    line <> EmptyString -> rejected line = true ->
    iteration st line (Continue st)
| it_no_request :
    line <> EmptyString -> rejected line = false ->
    requestLineOf line = None ->
    iteration st line (Continue st)
| it_no_id rl e :
    line <> EmptyString -> rejected line = false ->
    requestLineOf line = Some rl ->
    rnd (rand_calls st) = inl e ->
    iteration st line
      (Continue (mkState (processedCount st) (out st) (S (rand_calls st))))
| it_write_failed rl g j n e :
    line <> EmptyString -> rejected line = false ->
    requestLineOf line = Some rl ->
    rnd (rand_calls st) = inr g ->
    (j < 3)%nat ->
    (forall i, (i < j)%nat -> w (i + List.length (out st))%nat = None) ->
    w (j + List.length (out st))%nat = Some (n, e) ->
    let rec := record (reqID_of g) (timestampOf line) rl in
    iteration st line
      (Return (mkState (processedCount st)
                       (out st ++ firstn j rec ++ [take n (nth j rec EmptyString)])
                       (S (rand_calls st)))
              (ErrWrap (segment_error j) e))
| it_emitted rl g :
    line <> EmptyString -> rejected line = false ->
    requestLineOf line = Some rl ->
    rnd (rand_calls st) = inr g ->
    (forall i, (i < 3)%nat -> w (i + List.length (out st))%nat = None) ->
    iteration st line
      (Continue (mkState (wrap64 (processedCount st + 1))
                         (out st ++ record (reqID_of g) (timestampOf line) rl)
                         (S (rand_calls st)))).

(** The loop over the scanned lines; [Return] leaves the function. *)
Fixpoint loop (st : State) (lines : list string) : Step :=
  match lines with
  | [] => Continue st
  | line :: lines' =>
      match body st line with
      | Continue st' => loop st' lines'
      | Return st' err => Return st' err
      end
  end.

(** What a call of [processLogs] leaves behind: the returned pair and the
    state of the environment. *)
Record Outcome : Type := mkOutcome {
  count : Z;
  err : option error;
  final : State
}.

Definition run (sc : Scanner) : Outcome :=
  match loop init (tokens sc) with
  | Return st e => mkOutcome (processedCount st) (Some e) st
  | Continue st =>
      match Err sc with
      | Some e =>
          mkOutcome (processedCount st)
            (Some (ErrWrap "error reading input file" e)) st
      | None => mkOutcome (processedCount st) None st
      end
  end.

Definition processLogs (r : Reader) : Outcome := run (NewScanner r).
End ProcessLogs.

(** ** Vocabulary of the specification *)

Definition q : string := str1 dquote.
Definition sp : string := str1 space.

Fixpoint starts_with (pre s : string) : bool :=
  match pre, s with
  | EmptyString, _ => true
  | String a pre', String b s' => Ascii.eqb b a && starts_with pre' s'
  | String _ _, EmptyString => false
  end.

(** The longest prefix of [s] whose bytes satisfy [f], and the rest. *)
Fixpoint span (f : ascii -> bool) (s : string) : string * string :=
  match s with
  | String c s' =>
      if f c then let (a, b) := span f s' in (String c a, b)
      else (EmptyString, s)
  | EmptyString => (EmptyString, EmptyString)
  end.

Definition no_byte (c : ascii) (s : string) : Prop :=
  forallb_str (fun x => negb (Ascii.eqb x c)) s = true.

(** A request line as the specification describes it: METHOD from the
    fixed set, PATH a non-empty run of non-space bytes, PROTOCOL a
    non-empty run of bytes other than the double quote. *)
Record valid_request (m path proto : string) : Prop := mkValid {
  vr_method : In m methods;
  vr_path : path <> EmptyString;
  vr_path_run : no_byte space path;
  vr_proto : proto <> EmptyString;
  vr_proto_run : no_byte dquote proto
}.

Definition request_text (m path proto : string) : string :=
  m ++ sp ++ path ++ sp ++ proto.

(** A quoted request line at the front of [s], and somewhere in [line]. *)
Definition quoted_request_at (s m path proto rest : string) : Prop :=
  valid_request m path proto /\
  s = q ++ request_text m path proto ++ q ++ rest.

Definition has_quoted_request (line : string) : Prop :=
  exists pre s m path proto rest,
    line = pre ++ s /\ quoted_request_at s m path proto rest.

(** The first quoted request line of [line]: no quoted request line starts
    at an earlier byte. *)
Definition first_request (line pre m path proto rest : string) : Prop :=
  line = pre ++ q ++ request_text m path proto ++ q ++ rest /\
  valid_request m path proto /\
  forall pre1 t1 m1 path1 proto1 rest1,
    line = pre1 ++ t1 ->
    (String.length pre1 < String.length pre)%nat ->
    ~ quoted_request_at t1 m1 path1 proto1 rest1.

(** The pattern [re] read directly: a double quote, one of the methods, a
    space, a run of non-spaces, a space, a run of non-quotes, a quote. *)
Definition requestAt (s : string) : option (string * string * string * string) :=
  match s with
  | String c0 s1 =>
      if Ascii.eqb c0 dquote then
        match find (fun m => starts_with m s1) methods with
        | Some m =>
            match drop (String.length m) s1 with
            | String c2 s3 =>
                if Ascii.eqb c2 space then
                  let (path, s4) := span (cset_mem (CNot space)) s3 in
                  if is_empty path then None
                  else
                    match s4 with
                    | String c4 s5 =>
                        if Ascii.eqb c4 space then
                          let (proto, s6) := span (cset_mem (CNot dquote)) s5 in
                          if is_empty proto then None
                          else
                            match s6 with
                            | String c6 rest =>
                                if Ascii.eqb c6 dquote
                                then Some (m, path, proto, rest)
                                else None
                            | EmptyString => None
                            end
                        else None
                    | EmptyString => None
                    end
                else None
            | EmptyString => None
            end
        | None => None
        end
      else None
  | EmptyString => None
  end.

(** The pattern [timeRe] read directly: an opening bracket, the twenty
    bytes of the date and time, a space, a run of bytes other than the
    closing bracket, the closing bracket.  The result is the date-time
    text, the offset text and the rest of the input. *)
Definition timeAt (s : string) : option (string * string * string) :=
  match s with
  | String c0 s1 =>
      if Ascii.eqb c0 lbracket then
        match match_atoms datetime_atoms s1 with
        | Some (String c1 s3) =>
            if Ascii.eqb c1 space then
              let (off, s4) := span (cset_mem (CNot rbracket)) s3 in
              if is_empty off then None
              else
                match s4 with
                | String c2 rest =>
                    if Ascii.eqb c2 rbracket
                    then Some (take (List.length datetime_atoms) s1, off, rest)
                    else None
                | EmptyString => None
                end
            else None
        | _ => None
        end
      else None
  | EmptyString => None
  end.

(** A bracketed time field as the specification describes it. *)
Definition time_field (dt off : string) : string :=
  str1 lbracket ++ dt ++ sp ++ off ++ str1 rbracket.

Definition valid_time_field (dt off : string) : Prop :=
  match_atoms datetime_atoms dt = Some EmptyString /\
  off <> EmptyString /\ no_byte rbracket off.

(** ** Records and runs *)

(** A record by its fields: identifier, timestamp, request line. *)
Definition render (r : string * Z * string) : list string :=
  let '(id, ts, rl) := r in record id ts rl.

Definition wf_record (r : string * Z * string) : Prop :=
  let '(id, ts, rl) := r in no_byte LF id /\ no_byte LF rl.

Fixpoint last_byte (s : string) : option ascii :=
  match s with
  | EmptyString => None
  | String c EmptyString => Some c
  | String _ s' => last_byte s'
  end.

(** An input with a line that does not fit the buffer of the scanner: at
    the start of the input or after a line feed come [MaxScanTokenSize]
    bytes or more without a line feed. *)
Definition has_long_line (input : string) : Prop :=
  exists pre long rest,
    input = pre ++ long ++ rest /\
    (pre = EmptyString \/ last_byte pre = Some LF) /\
    no_byte LF long /\
    (MaxScanTokenSize <= String.length long)%nat.

(** States of two runs that agree up to the identifiers written. *)
Definition agree (st1 st2 : State) : Prop :=
  processedCount st1 = processedCount st2 /\
  rand_calls st1 = rand_calls st2 /\
  Forall2 same_but_id (out st1) (out st2).

Definition agree_step (s1 s2 : Step) : Prop :=
  match s1, s2 with
  | Continue st1, Continue st2 => agree st1 st2
  | Return st1 e1, Return st2 e2 => agree st1 st2 /\ e1 = e2
  | _, _ => False
  end.

(** ** Sample environments *)

(** The input line of the end-to-end scenario. *)
Definition sample_line : string :=
  "127.0.0.1 - - [01/Oct/2025:12:30:11 +0000] " ++ q ++
  "GET /api/v1/users HTTP/1.1" ++ q ++ " 200 512 " ++ q ++ "-" ++ q ++
  " " ++ q ++ "curl/8.0" ++ q.

(** The same line with another text in the offset field. *)
Definition sample_with_offset (off : string) : string :=
  "127.0.0.1 - - " ++ time_field "01/Oct/2025:12:30:11" off ++ " " ++ q ++
  "GET /api/v1/users HTTP/1.1" ++ q ++ " 200 512 " ++ q ++ "-" ++ q ++
  " " ++ q ++ "curl/8.0" ++ q.

(** The three segments expected for [sample_line]. *)
Definition sample_record (g : nat -> ascii) : list string :=
  [ "1 " ++ EncodeToString (map g (seq 0 12)) ++ " 1759321811000000000 0" ++ str1 LF;
    "GET /api/v1/users HTTP/1.1" ++ String CR (String LF (String CR (String LF (str1 LF))));
    gorPayloadDelimiter ++ str1 LF ].

(** A writer whose calls all succeed. *)
Definition okWriter : Writer := fun _ => None.

(** A writer whose [i]-th call fails after [n] bytes. *)
Definition failAt (i n : nat) : Writer :=
  fun j => if Nat.eqb j i then Some (n, ErrNew "no space left on device") else None.

(** A parser that reports every line as matched. *)
Definition okParser : RegexParser :=
  mkParser (fun _ => (mkResult 1 [], None)).

Fixpoint contains (c : ascii) (s : string) : bool :=
  match s with
  | EmptyString => false
  | String x s' => Ascii.eqb x c || contains c s'
  end.

(** A parser that reports a line without opening bracket as unmatched, as
    a parser for the Common Log Format does: the time field is bracketed. *)
Definition bracketParser : RegexParser :=
  mkParser (fun line =>
              if contains lbracket line then (mkResult 1 [], None)
              else (mkResult 0 [line], None)).

(** A random source that never fails, and one whose first read fails. *)
Definition okRand : RandSource := fun i => inr (fun j => byte_of (17 * i + j)).

Definition badRand : RandSource :=
  fun i => match i with
           | O => inl (ErrNew "entropy source unavailable")
           | S _ => okRand i
           end.

(** The first two fillings delivered by [okRand]. *)
Definition g0 : nat -> ascii := fun j => byte_of (17 * 0 + j).
Definition g1 : nat -> ascii := fun j => byte_of (17 * 1 + j).

(** A second random source that never fails. *)
Definition okRand' : RandSource := fun i => inr (fun j => byte_of (3 * j + i)).

(** A line whose time field names the 32nd of October. *)
Definition bad_day_line : string :=
  "127.0.0.1 - - [32/Oct/2025:12:30:11 +0000] " ++ q ++
  "GET /api/v1/users HTTP/1.1" ++ q ++ " 200 512".

(** A line with a quoted request line and no time field. *)
Definition no_time_line : string :=
  "127.0.0.1 - - " ++ q ++ "GET /api/v1/users HTTP/1.1" ++ q ++ " 200 512".

(** ** Inputs, runs and the program as a whole

    Vocabulary for the properties of whole runs: inputs given line by line,
    capabilities seen from a later call on, the lines that reach
    [generateRequestID], the records they give, the fields of a header
    line, time fields and their text, and [main]. *)

(** [lines] written one after the other, each followed by [eol]. *)
Fixpoint unlines (eol : string) (lines : list string) : string :=
  match lines with
  | [] => EmptyString
  | l :: ls => l ++ eol ++ unlines eol ls
  end.

(** A line that fits the scanner's buffer with its terminator, holds no
    line feed and does not end in a carriage return. *)
Definition plain_line (l : string) : Prop :=
  no_byte LF l /\ last_byte l <> Some CR /\
  (String.length l + 1 < MaxScanTokenSize)%nat.

Definition CRLF : string := String CR (str1 LF).

Fixpoint replicate (n : nat) (c : ascii) : string :=
  match n with
  | O => EmptyString
  | S n' => String c (replicate n' c)
  end.

(** A capability seen from its [k]-th call on. *)
Definition shift {T : Type} (f : nat -> T) (k : nat) : nat -> T :=
  fun i => f (k + i)%nat.

(** The state [st] of a run that started after the state [st0] of an
    earlier run on the same writer and random source. *)
Definition after (st0 st : State) : State :=
  mkState (wrap64 (processedCount st0 + processedCount st))
          (out st0 ++ out st)
          (rand_calls st0 + rand_calls st).

Definition after_step (st0 : State) (s : Step) : Step :=
  match s with
  | Continue st => Continue (after st0 st)
  | Return st e => Return (after st0 st) e
  end.

Definition int64_range (z : Z) : Prop := - 2 ^ 63 <= z < 2 ^ 63.

(** A line that reaches [generateRequestID]: not empty, accepted by the
    parser, with a request line. *)
Definition eligible (p : RegexParser) (line : string) : bool :=
  negb (is_empty line) && negb (rejected p line) &&
  match requestLineOf line with Some _ => true | None => false end.

(** The records of eligible lines when no write fails: the [k]-th read of
    the random source goes with the first line, and a line whose read fails
    gives no record. *)
Fixpoint records_of (rnd : RandSource) (k : nat) (lines : list string)
  : list (string * Z * string) :=
  match lines with
  | [] => []
  | line :: lines' =>
      match rnd k, requestLineOf line with
      | inr g, Some rl =>
          (reqID_of g, timestampOf line, rl) :: records_of rnd (S k) lines'
      | _, _ => records_of rnd (S k) lines'
      end
  end.

(** The fields of a line: the pieces between its spaces. *)
Fixpoint fields (cur s : string) : list string :=
  match s with
  | EmptyString => [cur]
  | String c s' =>
      if Ascii.eqb c space then cur :: fields EmptyString s'
      else fields (cur ++ str1 c) s'
  end.

(** A signed decimal numeral read back. *)
Definition read_decimal (s : string) : option Z :=
  match s with
  | EmptyString => None
  | String c ds =>
      if Ascii.eqb c "-" then
        match ds with
        | EmptyString => None
        | _ => option_map Z.opp (atoi_digits 0 ds)
        end
      else atoi_digits 0 s
  end.

(** A record as [processLogs] writes them: a hexadecimal identifier and a
    request line without line feed. *)
Definition hex_record (r : string * Z * string) : Prop :=
  let '(id, ts, rl) := r in
  forallb_str is_lower_hex id = true /\ no_byte LF rl.

(** A line with a bracketed time field somewhere, and its first one. *)
Definition has_time_field (line : string) : Prop :=
  exists pre dt off rest,
    line = pre ++ time_field dt off ++ rest /\ valid_time_field dt off.

Definition first_time_field (line pre dt off rest : string) : Prop :=
  line = pre ++ time_field dt off ++ rest /\
  valid_time_field dt off /\
  forall pre1 dt1 off1 rest1,
    line = pre1 ++ time_field dt1 off1 ++ rest1 ->
    (String.length pre1 < String.length pre)%nat ->
    ~ valid_time_field dt1 off1.

(** Two and four decimal digits, zero padded. *)
Definition two (d : Z) : string :=
  String (digit_char (d / 10)) (str1 (digit_char (d mod 10))).

Definition four (y : Z) : string := two (y / 100) ++ two (y mod 100).

(** The text [dd/Mon/yyyy:HH:MM:SS] of a date and a time of day. *)
Definition datetime_text (day month year hour min sec : Z) : string :=
  two day ++ "/" ++ nth (Z.to_nat (month - 1)) shortMonthNames EmptyString ++ "/" ++
  four year ++ ":" ++ two hour ++ ":" ++ two min ++ ":" ++ two sec.

(** The ranges [time.Parse] checks. *)
Definition valid_date (day month year hour min sec : Z) : bool :=
  (1 <=? day) && (day <=? daysIn month year) &&
  (hour <? 24) && (min <? 60) && (sec <? 60).

(** ** [main]

    What [main] does, as the list of its own events in order.  The
    diagnostics that [processLogs] hands to the logger are not listed; a
    logged message is given without the prefix the logger puts before it.
    [log.Fatalf] logs and exits with status 1 without running the deferred
    calls; a return from [main] runs them, last deferred first, and the
    process exits with status 0. *)

Inductive Event : Type :=
| EvPrintln (s : string)            (* fmt.Println(s) *)
| EvLog (msg : string)              (* log.Printf and log.Fatalf: the message *)
| EvOpen (name : string)            (* os.Open(name) returned a file *)
| EvCreate (name : string)          (* os.Create(name) returned a file: it exists and is empty *)
| EvWrite (chunks : list string)    (* the Write calls of processLogs on the created file *)
| EvClose (name : string)           (* a deferred Close *)
| EvExit (code : Z).                (* the exit status of the process *)

(** The operating system and the imported parser as [main] uses them. *)
Record System : Type := mkSystem {
  Open : string -> option error;            (* the error of os.Open(name), if any *)
  Create : string -> option error;          (* the error of os.Create(name), if any *)
  contents : string -> string -> Reader;    (* what the opened input delivers once the output is created *)
  file_writer : string -> Writer;           (* the outcomes of the writes on the created file *)
  NewApacheCLFRegexParser : RegexParser;    (* parser.NewApacheCLFRegexParser(ctx, io.Discard, parser.Option{}) *)
  Rand : RandSource                         (* crypto/rand *)
}.

Definition main (sys : System) (Args : list string) : list Event :=
  match Args with
  | [_; inputFile; outputFile] =>
      EvLog ("Starting conversion from " ++ inputFile ++ " to " ++ outputFile) ::
      match Open sys inputFile with
      | Some e =>
          [EvLog ("Error opening input file " ++ inputFile ++ ": " ++ Error e);
           EvExit 1]
      | None =>
          EvOpen inputFile ::
          match Create sys outputFile with
          | Some e =>
              [EvLog ("Error creating output file " ++ outputFile ++ ": " ++ Error e);
               EvExit 1]
          | None =>
              EvCreate outputFile ::
              let o := processLogs (file_writer sys outputFile)
                                   (NewApacheCLFRegexParser sys) (Rand sys)
                                   (contents sys inputFile outputFile) in
              EvWrite (out (final o)) ::
              match err o with
              | Some e =>
                  [EvLog ("Error during processing: " ++ Error e); EvExit 1]
              | None =>
                  [EvLog ("✅ Success! Converted " ++ fmt_d (count o) ++ " log entries.");
                   EvLog ("Output saved to " ++ outputFile);
                   EvClose outputFile; EvClose inputFile; EvExit 0]
              end
          end
      end
  | _ =>
      [EvPrintln "Usage: log-to-gor <input_logfile> <output_gorfile>";
       EvPrintln "Example: ./log-to-gor access.log requests.gor";
       EvExit 1]
  end.

Definition exit_status (tr : list Event) : option Z :=
  match last tr (EvExit 0) with
  | EvExit c => Some c
  | _ => None
  end.

(** A system in which both files open, the input holds [sample_line] and
    nothing fails. *)
Definition sample_system : System :=
  mkSystem (fun _ => None) (fun _ => None)
           (fun _ _ => mkReader (sample_line ++ str1 LF) None)
           (fun _ => okWriter) okParser okRand.

(** * Properties *)

(** ** The library models on examples *)

Example scan_lines_terminators :
  scan_lines EmptyString ("a" ++ String CR (String LF (String LF "b")))
  = (["a"; EmptyString; "b"], None).
Proof. reflexivity. Qed.

Example scan_lines_final_CR :
  scan_lines EmptyString ("a" ++ String LF (str1 CR)) = (["a"; EmptyString], None).
Proof. reflexivity. Qed.

(** The timestamp that the repository's [test.sh] greps for. *)
Example parse_test_sh :
  parseUnixNano "02/Oct/2025:12:50:11" = Some 1759409411000000000.
Proof. reflexivity. Qed.

Example parse_epoch : parseUnixNano "01/Jan/1970:00:00:00" = Some 0.
Proof. reflexivity. Qed.

Example parse_month_case :
  parseUnixNano "01/oCT/2025:12:30:11" = Some 1759321811000000000.
Proof. reflexivity. Qed.

Example parse_leap_day :
  parseUnixNano "29/Feb/2000:00:00:00" = Some 951782400000000000 /\
  parseUnixNano "29/Feb/1900:00:00:00" = None.
Proof. split; reflexivity. Qed.

Example parse_out_of_range :
  parseUnixNano "31/Apr/2025:12:30:11" = None /\
  parseUnixNano "01/Okt/2025:12:30:11" = None /\
  parseUnixNano "01/Oct/2025:24:00:00" = None.
Proof. repeat split; reflexivity. Qed.

(** After 2262 the nanoseconds no longer fit 64 bits. *)
Example parse_wraps :
  parseUnixNano "01/Jan/2263:00:00:00" = Some (-9200561673709551616).
Proof. reflexivity. Qed.

Example fmt_d_examples :
  fmt_d 0 = "0" /\ fmt_d 1759321811000000000 = "1759321811000000000" /\
  fmt_d (-9200561673709551616) = "-9200561673709551616".
Proof. repeat split; reflexivity. Qed.

Example EncodeToString_example :
  EncodeToString [byte_of 0; byte_of 171; byte_of 255] = "00abff".
Proof. reflexivity. Qed.

Example re_needs_quotes : FindStringSubmatch re "GET / HTTP/1.1" = [].
Proof. reflexivity. Qed.

Example re_method_case :
  FindStringSubmatch re (q ++ "get / HTTP/1.1" ++ q) = [].
Proof. reflexivity. Qed.

Example re_empty_path :
  FindStringSubmatch re (q ++ "GET  / HTTP/1.1" ++ q) = [].
Proof. reflexivity. Qed.

Example timeRe_needs_offset :
  FindStringSubmatch timeRe "[01/Oct/2025:12:30:11]" = [].
Proof. reflexivity. Qed.

Example timeRe_first_field :
  FindStringSubmatch timeRe
    "[x] [01/Oct/2025:12:30:11 +0000] [02/Oct/2025:12:30:11 +0000]"
  = ["[01/Oct/2025:12:30:11 +0000]"; "01/Oct/2025:12:30:11"].
Proof. reflexivity. Qed.

(** ** Byte strings *)

Lemma append_nil_r (s : string) : s ++ EmptyString = s.
Proof. induction s as [|c s IH]; simpl; [reflexivity | now rewrite IH]. Qed.

Lemma append_assoc (a b c : string) : (a ++ b) ++ c = a ++ (b ++ c).
Proof. induction a as [|x a IH]; simpl; [reflexivity | now rewrite IH]. Qed.

Lemma length_append (a b : string) :
  String.length (a ++ b) = (String.length a + String.length b)%nat.
Proof. induction a as [|x a IH]; simpl; [reflexivity | now rewrite IH]. Qed.

Lemma take_app (a b : string) : take (String.length a) (a ++ b) = a.
Proof. induction a as [|x a IH]; simpl; [now destruct b | now rewrite IH]. Qed.

Lemma drop_app (a b : string) : drop (String.length a) (a ++ b) = b.
Proof. induction a as [|x a IH]; simpl; [reflexivity | exact IH]. Qed.

Lemma take_consumed (a b : string) :
  take (String.length (a ++ b) - String.length b) (a ++ b) = a.
Proof.
  rewrite length_append.
  replace (String.length a + String.length b - String.length b)%nat
    with (String.length a) by lia.
  apply take_app.
Qed.

Lemma starts_with_app (pre s : string) :
  starts_with pre s = true <-> exists t, s = pre ++ t.
Proof.
  revert s; induction pre as [|a pre IH]; intros s; simpl.
  - split; [intros _; now exists s | reflexivity].
  - destruct s as [|b s].
    + split; [discriminate | intros [t H]; discriminate].
    + rewrite andb_true_iff, Ascii.eqb_eq, IH. split.
      * intros [-> [t ->]]. now exists t.
      * intros [t H]. injection H as -> ->. split; [reflexivity | now exists t].
Qed.

Lemma starts_with_drop (pre s : string) :
  starts_with pre s = true -> s = pre ++ drop (String.length pre) s.
Proof.
  intros H. apply starts_with_app in H as [t ->]. now rewrite drop_app.
Qed.

Lemma span_app (f : ascii -> bool) (s : string) :
  fst (span f s) ++ snd (span f s) = s.
Proof.
  induction s as [|c s IH]; simpl; [reflexivity|].
  destruct (f c); [|reflexivity].
  destruct (span f s) as [a b]; simpl in *. now rewrite IH.
Qed.

Lemma span_all (f : ascii -> bool) (s : string) :
  forallb_str f (fst (span f s)) = true.
Proof.
  induction s as [|c s IH]; simpl; [reflexivity|].
  destruct (f c) eqn:E; [|reflexivity].
  destruct (span f s) as [a b]; simpl in *. now rewrite E, IH.
Qed.

(** [span] on a run that is followed by a byte outside [f]. *)
Lemma span_run (f : ascii -> bool) (a : string) (c : ascii) (t : string) :
  forallb_str f a = true -> f c = false ->
  span f (a ++ String c t) = (a, String c t).
Proof.
  intros Ha Hc. induction a as [|x a IH]; simpl in *.
  - now rewrite Hc.
  - apply andb_true_iff in Ha as [Hx Ha]. now rewrite Hx, (IH Ha).
Qed.

(** ** The matcher *)

Section MatcherLemmas.
Context {A : Type}.
Implicit Types (k : @cont A) (s : string) (cs : captures).

Lemma orElse_None_r (x : option A) : orElse x None = x.
Proof. now destruct x. Qed.

Lemma rmatch_lit (l : string) s cs k :
  rmatch (RLit l) s cs k =
  if starts_with l s then k (drop (String.length l) s) cs else None.
Proof.
  revert s; induction l as [|a l IH]; intros s; simpl; [reflexivity|].
  destruct s as [|b s]; [reflexivity|].
  destruct (Ascii.eqb b a); simpl; [apply IH | reflexivity].
Qed.

(** Alternatives that are literals: the branches are tried in order. *)
Lemma rmatch_alts_lits (l : string) (ls : list string) s cs k :
  rmatch (RAlts (map RLit (l :: ls))) s cs k =
  fold_right
    (fun m acc =>
       orElse (if starts_with m s then k (drop (String.length m) s) cs
               else None) acc)
    None (l :: ls).
Proof.
  revert l; induction ls as [|l' ls IH]; intros l.
  - cbn [map RAlts fold_right]. now rewrite rmatch_lit, orElse_None_r.
  - change (RAlts (map RLit (l :: l' :: ls)))
      with (RAlt (RLit l) (RAlts (map RLit (l' :: ls)))).
    cbn [rmatch fold_right]. now rewrite rmatch_lit, IH.
Qed.

(** When at most one literal is a prefix of the input, backtracking into
    the alternation finds nothing new. *)
Lemma alts_unique (ms : list string) s cs k :
  (forall m m', In m ms -> In m' ms ->
                starts_with m s = true -> starts_with m' s = true -> m = m') ->
  NoDup ms ->
  fold_right
    (fun m acc =>
       orElse (if starts_with m s then k (drop (String.length m) s) cs
               else None) acc)
    None ms =
  match find (fun m => starts_with m s) ms with
  | Some m => k (drop (String.length m) s) cs
  | None => None
  end.
Proof.
  induction ms as [|m ms IH]; intros Huniq Hnd; simpl; [reflexivity|].
  inversion Hnd as [|? ? Hnotin Hnd']; subst.
  destruct (starts_with m s) eqn:E.
  - destruct (k (drop (String.length m) s) cs); [reflexivity|]. simpl.
    rewrite IH by (auto; intros; apply Huniq; simpl; auto).
    destruct (find _ ms) as [m'|] eqn:F; [|reflexivity].
    apply find_some in F as [Hin Hm'].
    exfalso. apply Hnotin.
    rewrite (Huniq m m'); simpl; auto.
  - simpl. apply IH; auto. intros; apply Huniq; simpl; auto.
Qed.

(** A continuation that fails on every input whose first byte is in [f]. *)
Definition rejects (f : cset) k : Prop :=
  forall c s cs, cset_mem f c = true -> k (String c s) cs = None.

Lemma plus_loop_set (f : cset) k (fuel : nat) s cs :
  rejects f k -> (String.length s <= fuel)%nat ->
  plus_loop (rmatch (RSet f)) k fuel s cs =
  if is_empty (fst (span (cset_mem f) s)) then None
  else k (snd (span (cset_mem f) s)) cs.
Proof.
  intros Hk. revert s; induction fuel as [|fuel IH]; intros s Hlen.
  - destruct s; [reflexivity | simpl in Hlen; lia].
  - destruct s as [|c s]; [reflexivity|].
    cbn [plus_loop rmatch span].
    destruct (cset_mem f c) eqn:Ec; [|reflexivity].
    replace (String.length s <? String.length (String c s))%nat with true
      by (symmetry; apply Nat.ltb_lt; simpl; lia).
    rewrite IH by (simpl in Hlen; lia).
    destruct (span (cset_mem f) s) as [a b] eqn:Es. cbn [fst snd is_empty].
    destruct a as [|x a]; cbn [is_empty orElse].
    + destruct s as [|y s]; simpl in Es.
      * now injection Es as <-.
      * destruct (cset_mem f y); [now destruct (span (cset_mem f) s)|].
        now injection Es as <-.
    + destruct s as [|y s]; simpl in Es; [discriminate|].
      destruct (cset_mem f y) eqn:Ey.
      * rewrite (Hk y s cs Ey). apply orElse_None_r.
      * discriminate.
Qed.

(** [f+] followed by something that cannot start with a byte of [f]:
    the run is maximal and there is nothing to backtrack into. *)
Lemma rmatch_plus_set (f : cset) k s cs :
  rejects f k ->
  rmatch (RPlus (RSet f)) s cs k =
  if is_empty (fst (span (cset_mem f) s)) then None
  else k (snd (span (cset_mem f) s)) cs.
Proof. intros Hk. cbn [rmatch]. now apply plus_loop_set. Qed.

Lemma rejects_char (f : cset) (c : ascii) k :
  cset_mem f c = false -> rejects f (fun s cs => rmatch (RChar c) s cs k).
Proof.
  intros Hc x s cs Hx. cbn [rmatch].
  destruct (Ascii.eqb x c) eqn:E; [|reflexivity].
  apply Ascii.eqb_eq in E. congruence.
Qed.
End MatcherLemmas.

(** ** The request-line pattern *)

Lemma methods_unique s m m' :
  In m methods -> In m' methods ->
  starts_with m s = true -> starts_with m' s = true -> m = m'.
Proof.
  intros Hm Hm' H H'.
  apply starts_with_app in H as [t ->].
  apply starts_with_app in H' as [t' E].
  unfold methods in *. simpl in Hm, Hm'.
  repeat (destruct Hm as [<-|Hm]; [|]); try contradiction;
  repeat (destruct Hm' as [<-|Hm']; [|]); try contradiction;
  try reflexivity; simpl in E; congruence.
Qed.

Lemma methods_NoDup : NoDup methods.
Proof.
  unfold methods. repeat constructor; simpl; intuition congruence.
Qed.

Lemma take_prefix m s : starts_with m s = true ->
  take (String.length s - String.length (drop (String.length m) s)) s = m.
Proof.
  intros H. apply starts_with_app in H as [t ->].
  rewrite drop_app. apply take_consumed.
Qed.

Lemma take_span f s :
  take (String.length s - String.length (snd (span f s))) s = fst (span f s).
Proof.
  rewrite <- (span_app f s) at 1 3. apply take_consumed.
Qed.

Section Eqns.
Context {A : Type}.
Implicit Types (k : @cont A).
Lemma rmatch_cat r1 r2 s cs k :
  rmatch (RCat r1 r2) s cs k = rmatch r1 s cs (fun s' cs' => rmatch r2 s' cs' k).
Proof. reflexivity. Qed.
Lemma rmatch_char c s cs k :
  rmatch (RChar c) s cs k =
  match s with
  | String c' s' => if Ascii.eqb c' c then k s' cs else None
  | EmptyString => None
  end.
Proof. reflexivity. Qed.
Lemma rmatch_group i r s cs k :
  rmatch (RGroup i r) s cs k =
  rmatch r s cs
    (fun s' cs' => k s' ((i, take (String.length s - String.length s') s) :: cs')).
Proof. reflexivity. Qed.

Lemma rmatch_group_run i f s cs k :
  rejects f k ->
  rmatch (RGroup i (RPlus (RSet f))) s cs k =
  if is_empty (fst (span (cset_mem f) s)) then None
  else k (snd (span (cset_mem f) s)) ((i, fst (span (cset_mem f) s)) :: cs).
Proof.
  intros Hk. rewrite rmatch_group, rmatch_plus_set.
  - now rewrite take_span.
  - intros c s' cs' Hc. now apply Hk.
Qed.

Lemma rmatch_group_methods s cs k :
  rmatch (RGroup 1 (RAlts (map RLit methods))) s cs k =
  match find (fun m => starts_with m s) methods with
  | Some m => k (drop (String.length m) s) ((1%nat, m) :: cs)
  | None => None
  end.
Proof.
  rewrite rmatch_group.
  match goal with |- rmatch _ _ _ ?K = _ => set (k' := K) end.
  unfold methods at 1. rewrite rmatch_alts_lits.
  fold methods. rewrite alts_unique.
  - destruct (find _ methods) as [m|] eqn:F; [|reflexivity].
    apply find_some in F as [_ F]. subst k'. cbv beta.
    now rewrite (take_prefix _ _ F).
  - intros m m'. apply methods_unique.
  - apply methods_NoDup.
Qed.
End Eqns.

Lemma rmatch_re A s cs (k : @cont A) :
  rmatch (expr re) s cs k =
  match requestAt s with
  | Some (m, path, proto, rest) =>
      k rest ((3%nat, proto) :: (2%nat, path) :: (1%nat, m) :: cs)
  | None => None
  end.
Proof.
  unfold re, requestAt. cbn [expr RSeq].
  rewrite rmatch_cat, rmatch_char.
  destruct s as [|c0 s1]; [reflexivity|].
  destruct (Ascii.eqb c0 dquote); [|reflexivity].
  rewrite rmatch_cat, rmatch_group_methods.
  destruct (find _ methods) as [m|]; [|reflexivity].
  rewrite rmatch_cat, rmatch_char.
  destruct (drop (String.length m) s1) as [|c2 s3]; [reflexivity|].
  destruct (Ascii.eqb c2 space); [|reflexivity].
  rewrite rmatch_cat, rmatch_group_run.
  2:{ intros c s cs' Hc. rewrite rmatch_cat.
      exact (rejects_char (CNot space) space _ eq_refl c s cs' Hc). }
  destruct (span (cset_mem (CNot space)) s3) as [path s4]. cbn [fst snd].
  destruct (is_empty path); [reflexivity|].
  rewrite rmatch_cat, rmatch_char.
  destruct s4 as [|c4 s5]; [reflexivity|].
  destruct (Ascii.eqb c4 space); [|reflexivity].
  rewrite rmatch_cat, rmatch_group_run.
  2:{ exact (rejects_char (CNot dquote) dquote _ eq_refl). }
  destruct (span (cset_mem (CNot dquote)) s5) as [proto s6]. cbn [fst snd].
  destruct (is_empty proto); [reflexivity|].
  rewrite rmatch_char.
  destruct s6 as [|c6 rest]; [reflexivity|].
  destruct (Ascii.eqb c6 dquote); reflexivity.
Qed.

Lemma find_first {T} (f : T -> bool) (x : T) (l : list T) :
  In x l -> f x = true -> exists y, find f l = Some y.
Proof.
  induction l as [|a l IH]; simpl; [contradiction|].
  intros [->|Hin] Hx.
  - rewrite Hx. now exists x.
  - destruct (f a); [now exists a | now apply IH].
Qed.

Lemma is_empty_false (s : string) : is_empty s = false <-> s <> EmptyString.
Proof. destruct s; simpl; split; congruence. Qed.

Lemma requestAt_sound s m path proto rest :
  requestAt s = Some (m, path, proto, rest) ->
  quoted_request_at s m path proto rest.
Proof.
  unfold requestAt.
  destruct s as [|c0 s1]; [discriminate|].
  destruct (Ascii.eqb c0 dquote) eqn:E0; [|discriminate].
  destruct (find _ methods) as [m0|] eqn:F; [|discriminate].
  apply find_some in F as [Hin Hpre].
  apply starts_with_drop in Hpre.
  destruct (drop (String.length m0) s1) as [|c2 s3]; [discriminate|].
  destruct (Ascii.eqb c2 space) eqn:E2; [|discriminate].
  pose proof (span_app (cset_mem (CNot space)) s3) as Happ1.
  pose proof (span_all (cset_mem (CNot space)) s3) as Hall1.
  destruct (span (cset_mem (CNot space)) s3) as [path0 s4]. cbn [fst snd] in *.
  destruct (is_empty path0) eqn:P; [discriminate|].
  destruct s4 as [|c4 s5]; [discriminate|].
  destruct (Ascii.eqb c4 space) eqn:E4; [|discriminate].
  pose proof (span_app (cset_mem (CNot dquote)) s5) as Happ2.
  pose proof (span_all (cset_mem (CNot dquote)) s5) as Hall2.
  destruct (span (cset_mem (CNot dquote)) s5) as [proto0 s6]. cbn [fst snd] in *.
  destruct (is_empty proto0) eqn:Q; [discriminate|].
  destruct s6 as [|c6 rest0]; [discriminate|].
  destruct (Ascii.eqb c6 dquote) eqn:E6; [|discriminate].
  intros H; injection H as -> -> -> ->.
  apply Ascii.eqb_eq in E0, E2, E4, E6. subst c0 c2 c4 c6.
  split.
  - constructor; try assumption; now apply is_empty_false.
  - unfold request_text, q, sp, str1. rewrite Hpre, <- Happ1, <- Happ2.
    repeat (progress (simpl; rewrite ?append_assoc)). reflexivity.
Qed.

Lemma quoted_shape m path proto rest :
  q ++ request_text m path proto ++ q ++ rest =
  String dquote
    (m ++ String space (path ++ String space (proto ++ String dquote rest))).
Proof.
  unfold request_text, q, sp, str1.
  repeat (progress (simpl; rewrite ?append_assoc)). reflexivity.
Qed.

Lemma requestAt_complete s m path proto rest :
  quoted_request_at s m path proto rest ->
  requestAt s = Some (m, path, proto, rest).
Proof.
  intros [[Hin Hp Hprun Hq Hqrun] ->]. rewrite quoted_shape.
  unfold requestAt. rewrite Ascii.eqb_refl.
  set (s1 := m ++ _).
  assert (Hsw : starts_with m s1 = true)
    by (apply starts_with_app; unfold s1; eauto).
  destruct (find_first (fun m0 => starts_with m0 s1) m methods Hin Hsw) as [m' F].
  rewrite F.
  apply find_some in F as [Hin' Hsw'].
  rewrite (methods_unique _ _ _ Hin' Hin Hsw' Hsw).
  subst s1. rewrite drop_app, Ascii.eqb_refl.
  rewrite (span_run (cset_mem (CNot space))); [| exact Hprun | reflexivity ].
  apply is_empty_false in Hp, Hq. rewrite Hp, Ascii.eqb_refl.
  rewrite (span_run (cset_mem (CNot dquote))); [| exact Hqrun | reflexivity ].
  now rewrite Hq, Ascii.eqb_refl.
Qed.

(** ** Leftmost search *)

Lemma search_None (r : regex) (s : string) :
  search r s = None <->
  (forall pre t, s = pre ++ t -> match_here r t = None).
Proof.
  induction s as [|c s IH]; simpl.
  - destruct (match_here r EmptyString) as [[s' cs]|] eqn:E.
    + split; [discriminate|]. intros H.
      now rewrite (H EmptyString EmptyString eq_refl) in E.
    + split; [|reflexivity]. intros _ pre t H.
      destruct pre; [|discriminate]. simpl in H. now subst t.
  - destruct (match_here r (String c s)) as [[s' cs]|] eqn:E.
    + split; [discriminate|]. intros H.
      now rewrite (H EmptyString (String c s) eq_refl) in E.
    + rewrite IH. split.
      * intros H pre t Hs. destruct pre as [|x pre]; simpl in Hs.
        -- now subst t.
        -- injection Hs as _ Hs. eapply H; eauto.
      * intros H pre t Hs. apply (H (String c pre) t). simpl. now rewrite Hs.
Qed.

Lemma search_Some (r : regex) (s whole : string) (cs : captures) :
  search r s = Some (whole, cs) <->
  exists pre t t',
    s = pre ++ t /\ match_here r t = Some (t', cs) /\
    whole = take (String.length t - String.length t') t /\
    (forall pre1 t1, s = pre1 ++ t1 ->
                     (String.length pre1 < String.length pre)%nat ->
                     match_here r t1 = None).
Proof.
  revert whole cs. induction s as [|c s IH]; intros whole cs; simpl.
  - destruct (match_here r EmptyString) as [[s' cs']|] eqn:E.
    + split.
      * intros H; injection H as <- <-.
        exists EmptyString, EmptyString, s'. repeat split; auto.
        intros pre1 t1 _ Hlt; simpl in Hlt; lia.
      * intros (pre & t & t' & Hs & Hm & -> & _).
        destruct pre; [|discriminate]. simpl in Hs; subst t.
        rewrite E in Hm. now injection Hm as -> ->.
    + split; [discriminate|].
      intros (pre & t & t' & Hs & Hm & _).
      destruct pre; [|discriminate]. simpl in Hs; subst t. congruence.
  - destruct (match_here r (String c s)) as [[s' cs']|] eqn:E.
    + split.
      * intros H; injection H as <- <-.
        exists EmptyString, (String c s), s'. repeat split; auto.
        intros pre1 t1 _ Hlt; simpl in Hlt; lia.
      * intros (pre & t & t' & Hs & Hm & -> & Hfirst).
        destruct pre as [|x pre].
        -- simpl in Hs; subst t. rewrite E in Hm. now injection Hm as -> ->.
        -- rewrite (Hfirst EmptyString (String c s) eq_refl) in E;
             [discriminate | simpl; lia].
    + rewrite IH. split.
      * intros (pre & t & t' & Hs & Hm & Hw & Hfirst).
        exists (String c pre), t, t'. repeat split; auto.
        -- simpl. now rewrite Hs.
        -- intros pre1 t1 Hs1 Hlt. destruct pre1 as [|x pre1].
           ++ simpl in Hs1. now subst t1.
           ++ simpl in Hs1. injection Hs1 as _ Hs1.
              apply (Hfirst pre1 t1 Hs1). simpl in Hlt. lia.
      * intros (pre & t & t' & Hs & Hm & Hw & Hfirst).
        destruct pre as [|x pre].
        -- simpl in Hs; subst t. congruence.
        -- simpl in Hs. injection Hs as _ Hs.
           exists pre, t, t'. repeat split; auto.
           intros pre1 t1 Hs1 Hlt.
           apply (Hfirst (String c pre1) t1); simpl; [now rewrite Hs1 | lia].
Qed.

Lemma match_here_re (s : string) :
  match_here (expr re) s =
  match requestAt s with
  | Some (m, path, proto, rest) =>
      Some (rest, [(3%nat, proto); (2%nat, path); (1%nat, m)])
  | None => None
  end.
Proof. unfold match_here. apply rmatch_re. Qed.

Lemma match_here_re_None (s : string) :
  match_here (expr re) s = None <->
  (forall m path proto rest, ~ quoted_request_at s m path proto rest).
Proof.
  rewrite match_here_re. split.
  - intros H m path proto rest Hq.
    now rewrite (requestAt_complete _ _ _ _ _ Hq) in H.
  - intros H. destruct (requestAt s) as [[[[m path] proto] rest]|] eqn:E;
      [|reflexivity].
    exfalso. exact (H _ _ _ _ (requestAt_sound _ _ _ _ _ E)).
Qed.

Lemma whole_match m path proto rest :
  let t := q ++ request_text m path proto ++ q ++ rest in
  take (String.length t - String.length rest) t = q ++ request_text m path proto ++ q.
Proof.
  intros t. subst t.
  replace (q ++ request_text m path proto ++ q ++ rest)
    with ((q ++ request_text m path proto ++ q) ++ rest)
    by (now rewrite !append_assoc).
  apply take_consumed.
Qed.

(** No match: the line has no quoted request line. *)
Lemma FindStringSubmatch_re_nil (line : string) :
  FindStringSubmatch re line = [] <-> ~ has_quoted_request line.
Proof.
  unfold FindStringSubmatch.
  destruct (search (expr re) line) as [[whole cs]|] eqn:E.
  - split; [discriminate|]. intros H. exfalso. apply H.
    apply search_Some in E as (pre & t & t' & Hs & Hm & _).
    rewrite match_here_re in Hm.
    destruct (requestAt t) as [[[[m path] proto] rest]|] eqn:R; [|discriminate].
    exists pre, t, m, path, proto, rest. split; [assumption|].
    now apply requestAt_sound.
  - split; [|reflexivity]. intros _ (pre & t & m & path & proto & rest & Hs & Hq).
    rewrite search_None in E. specialize (E pre t Hs).
    rewrite match_here_re_None in E. exact (E _ _ _ _ Hq).
Qed.

(** A match: the submatches of the first quoted request line. *)
Lemma FindStringSubmatch_re_first (line pre m path proto rest : string) :
  first_request line pre m path proto rest ->
  FindStringSubmatch re line =
  [q ++ request_text m path proto ++ q; m; path; proto].
Proof.
  intros (Hs & Hv & Hfirst). unfold FindStringSubmatch.
  assert (E : search (expr re) line =
              Some (q ++ request_text m path proto ++ q,
                    [(3%nat, proto); (2%nat, path); (1%nat, m)])).
  { apply search_Some.
    exists pre, (q ++ request_text m path proto ++ q ++ rest), rest.
    repeat split.
    - assumption.
    - rewrite match_here_re, (requestAt_complete _ m path proto rest);
        [reflexivity | now split].
    - symmetry. apply whole_match.
    - intros pre1 t1 Hs1 Hlt. apply match_here_re_None.
      intros m1 path1 proto1 rest1. now apply (Hfirst pre1 t1). }
  rewrite E. reflexivity.
Qed.

Lemma FindStringSubmatch_re_inv (line : string) :
  FindStringSubmatch re line <> [] ->
  exists pre m path proto rest, first_request line pre m path proto rest.
Proof.
  unfold FindStringSubmatch.
  destruct (search (expr re) line) as [[whole cs]|] eqn:E; [|congruence].
  intros _. apply search_Some in E as (pre & t & t' & Hs & Hm & _ & Hfirst).
  rewrite match_here_re in Hm.
  destruct (requestAt t) as [[[[m path] proto] rest]|] eqn:R; [|discriminate].
  apply requestAt_sound in R as [Hv Ht].
  exists pre, m, path, proto, rest. split; [|split].
  - now rewrite Hs, Ht.
  - assumption.
  - intros pre1 t1 m1 path1 proto1 rest1 Hs1 Hlt Hq.
    specialize (Hfirst pre1 t1 Hs1 Hlt).
    rewrite match_here_re_None in Hfirst. exact (Hfirst _ _ _ _ Hq).
Qed.

Lemma has_quoted_request_first (line : string) :
  has_quoted_request line <->
  exists pre m path proto rest, first_request line pre m path proto rest.
Proof.
  split.
  - intros H. apply FindStringSubmatch_re_inv.
    intros E. now apply FindStringSubmatch_re_nil in E.
  - intros (pre & m & path & proto & rest & Hs & Hv & _).
    exists pre, (q ++ request_text m path proto ++ q ++ rest), m, path, proto, rest.
    split; [assumption | now split].
Qed.

Lemma requestLineOf_None (line : string) :
  requestLineOf line = None <-> ~ has_quoted_request line.
Proof.
  unfold requestLineOf. rewrite <- FindStringSubmatch_re_nil.
  destruct (FindStringSubmatch re line) as [|w l] eqn:E.
  - simpl. tauto.
  - assert (Hne : FindStringSubmatch re line <> []) by congruence.
    apply FindStringSubmatch_re_inv in Hne as (pre & m & path & proto & rest & Hf).
    rewrite (FindStringSubmatch_re_first _ _ _ _ _ _ Hf) in E.
    injection E as <- <-. simpl. split; discriminate.
Qed.

Lemma requestLineOf_first (line pre m path proto rest : string) :
  first_request line pre m path proto rest ->
  requestLineOf line = Some (request_text m path proto).
Proof.
  intros Hf. unfold requestLineOf.
  rewrite (FindStringSubmatch_re_first _ _ _ _ _ _ Hf). reflexivity.
Qed.

(** ** The timestamp pattern *)

Lemma datetimeRe_atoms A s cs (k : @cont A) :
  rmatch datetimeRe s cs k = rmatch (RAtoms datetime_atoms) s cs k.
Proof. reflexivity. Qed.

Lemma rmatch_atoms A pat s cs (k : @cont A) :
  rmatch (RAtoms pat) s cs k =
  match match_atoms pat s with
  | Some s' => k s' cs
  | None => None
  end.
Proof.
  revert s; induction pat as [|a pat IH]; intros s; cbn [RAtoms match_atoms rmatch].
  - reflexivity.
  - destruct a as [c|f]; cbn [atom_regex atom_ok rmatch];
      (destruct s as [|x s]; [reflexivity|]).
    + destruct (Ascii.eqb x c); [apply IH | reflexivity].
    + destruct (cset_mem f x); [apply IH | reflexivity].
Qed.

Lemma match_atoms_take pat s s' :
  match_atoms pat s = Some s' -> s = take (List.length pat) s ++ s'.
Proof.
  revert s; induction pat as [|a pat IH]; intros s; cbn [match_atoms List.length take].
  - intros H; injection H as <-. now destruct s.
  - destruct s as [|x s]; [discriminate|].
    destruct (atom_ok a x); [|discriminate].
    intros H. cbn [append]. now rewrite <- (IH s H).
Qed.

Lemma match_atoms_app pat s t :
  match_atoms pat s = Some EmptyString -> match_atoms pat (s ++ t) = Some t.
Proof.
  revert s; induction pat as [|a pat IH]; intros s; cbn [match_atoms].
  - intros H; injection H as ->. reflexivity.
  - destruct s as [|x s]; [discriminate|]. cbn [append].
    destruct (atom_ok a x); [apply IH | discriminate].
Qed.

Lemma rmatch_timeRe A s cs (k : @cont A) :
  rmatch (expr timeRe) s cs k =
  match timeAt s with
  | Some (dt, off, rest) => k rest ((1%nat, dt) :: cs)
  | None => None
  end.
Proof.
  unfold timeRe, timeAt. cbn [expr RSeq].
  rewrite rmatch_cat, rmatch_char.
  destruct s as [|c0 s1]; [reflexivity|].
  destruct (Ascii.eqb c0 lbracket); [|reflexivity].
  rewrite rmatch_cat, rmatch_group, datetimeRe_atoms, rmatch_atoms.
  destruct (match_atoms datetime_atoms s1) as [s2|] eqn:E; [|reflexivity].
  apply match_atoms_take in E.
  assert (Hcap : take (String.length s1 - String.length s2) s1
                 = take (List.length datetime_atoms) s1).
  { rewrite E at 1 2. apply take_consumed. }
  rewrite Hcap. clear E Hcap.
  rewrite rmatch_cat, rmatch_char.
  destruct s2 as [|c1 s3]; [reflexivity|].
  destruct (Ascii.eqb c1 space); [|reflexivity].
  rewrite rmatch_cat, rmatch_plus_set.
  2:{ exact (rejects_char (CNot rbracket) rbracket _ eq_refl). }
  destruct (span (cset_mem (CNot rbracket)) s3) as [off s4]. cbn [fst snd].
  destruct (is_empty off); [reflexivity|].
  rewrite rmatch_char.
  destruct s4 as [|c2 rest]; [reflexivity|].
  destruct (Ascii.eqb c2 rbracket); reflexivity.
Qed.

Lemma match_atoms_length pat s :
  match_atoms pat s = Some EmptyString -> String.length s = List.length pat.
Proof.
  revert s; induction pat as [|a pat IH]; intros [|c s]; cbn; try discriminate; auto.
  destruct (atom_ok a c); [|discriminate]. intros H. f_equal. now apply IH.
Qed.

Lemma timeAt_field dt off rest :
  valid_time_field dt off ->
  timeAt (time_field dt off ++ rest) = Some (dt, off, rest).
Proof.
  intros (Hdt & Hoff & Hrun).
  assert (Hs : time_field dt off ++ rest =
               String lbracket (dt ++ String space (off ++ String rbracket rest))).
  { unfold time_field, sp, str1.
    repeat (progress (cbn [append]; rewrite ?append_assoc)). reflexivity. }
  rewrite Hs. unfold timeAt. rewrite Ascii.eqb_refl.
  rewrite (match_atoms_app _ _ _ Hdt), Ascii.eqb_refl.
  rewrite (span_run (cset_mem (CNot rbracket))); [| exact Hrun | reflexivity].
  apply is_empty_false in Hoff. rewrite Hoff, Ascii.eqb_refl.
  now rewrite <- (match_atoms_length _ _ Hdt), take_app.
Qed.

Lemma match_here_timeRe (s : string) :
  match_here (expr timeRe) s =
  match timeAt s with
  | Some (dt, off, rest) => Some (rest, [(1%nat, dt)])
  | None => None
  end.
Proof. unfold match_here. apply rmatch_timeRe. Qed.

Lemma search_here (r : regex) (s s' : string) (cs : captures) :
  match_here r s = Some (s', cs) ->
  search r s = Some (take (String.length s - String.length s') s, cs).
Proof. intros H. destruct s; cbn [search]; now rewrite H. Qed.

(** The search passes over bytes at which the pattern cannot start. *)
Lemma search_skip (r : regex) (pre t : string) :
  (forall c s, contains c pre = true -> match_here r (String c s) = None) ->
  search r (pre ++ t) = search r t.
Proof.
  induction pre as [|c pre IH]; intros H; cbn [append]; [reflexivity|].
  cbn [search]. rewrite H by (cbn [contains]; now rewrite Ascii.eqb_refl).
  apply IH. intros c' s Hc. apply H. cbn [contains]. rewrite Hc. apply orb_true_r.
Qed.

Lemma timeRe_needs_bracket (c : ascii) (s : string) :
  c <> lbracket -> match_here (expr timeRe) (String c s) = None.
Proof.
  intros Hc. rewrite match_here_timeRe. unfold timeAt.
  apply Ascii.eqb_neq in Hc. now rewrite Hc.
Qed.

Lemma contains_neq (c x : ascii) (s : string) :
  contains c s = false -> contains x s = true -> x <> c.
Proof. intros Hc Hx ->. congruence. Qed.

(** A line without opening bracket has no timestamp match. *)
Lemma FindStringSubmatch_timeRe_absent (line : string) :
  contains lbracket line = false -> FindStringSubmatch timeRe line = [].
Proof.
  intros H. unfold FindStringSubmatch.
  rewrite <- (append_nil_r line), search_skip.
  - cbn [search]. now rewrite match_here_timeRe.
  - intros c s Hc. apply timeRe_needs_bracket. eapply contains_neq; eauto.
Qed.

(** The first bracketed time field: the submatch is the date-time text. *)
Lemma FindStringSubmatch_timeRe_field (pre dt off rest : string) :
  contains lbracket pre = false ->
  valid_time_field dt off ->
  FindStringSubmatch timeRe (pre ++ time_field dt off ++ rest)
  = [time_field dt off; dt].
Proof.
  intros Hpre Hv. unfold FindStringSubmatch.
  rewrite search_skip.
  2:{ intros c s Hc. apply timeRe_needs_bracket. eapply contains_neq; eauto. }
  rewrite (search_here _ _ rest [(1%nat, dt)]).
  - now rewrite take_consumed.
  - now rewrite match_here_timeRe, (timeAt_field _ _ _ Hv).
Qed.

(** The timestamp is a function of the date-time text alone: the offset
    is not read. *)
Lemma timestampOf_field (pre dt off rest : string) :
  contains lbracket pre = false ->
  valid_time_field dt off ->
  timestampOf (pre ++ time_field dt off ++ rest)
  = match parseUnixNano dt with Some t => t | None => 0 end.
Proof.
  intros Hpre Hv. unfold timestampOf.
  now rewrite (FindStringSubmatch_timeRe_field _ _ _ _ Hpre Hv).
Qed.

Lemma timestampOf_absent (line : string) :
  contains lbracket line = false -> timestampOf line = 0.
Proof.
  intros H. unfold timestampOf.
  now rewrite (FindStringSubmatch_timeRe_absent _ H).
Qed.

(** ** One iteration of the loop *)

Lemma delimiter_utf8 : gorPayloadDelimiter = utf8 [128053; 128584; 128585].
Proof. reflexivity. Qed.

Lemma header_text (reqID : string) (timestamp : Z) :
  "1" ++ " " ++ reqID ++ " " ++ fmt_d timestamp ++ " " ++ fmt_d 0 ++ str1 LF
  = header_line reqID timestamp.
Proof.
  unfold header_line. change (fmt_d 0) with "0". reflexivity.
Qed.

Section BodyLemmas.
Variable w : Writer.
Variable p : RegexParser.
Variable rnd : RandSource.

Lemma body_emit st line rl g :
  line <> EmptyString -> rejected p line = false ->
  requestLineOf line = Some rl ->
  rnd (rand_calls st) = inr g ->
  w (List.length (out st)) = None ->
  w (1 + List.length (out st))%nat = None ->
  w (2 + List.length (out st))%nat = None ->
  body w p rnd st line =
  Continue (mkState (wrap64 (processedCount st + 1))
                    (out st ++ record (reqID_of g) (timestampOf line) rl)
                    (S (rand_calls st))).
Proof.
  intros Hne Hrej Hrl Hg H0 H1 H2. unfold body.
  apply is_empty_false in Hne. rewrite Hne, Hrej, Hrl.
  unfold generateRequestID. rewrite Hg.
  unfold Fprintf; cbn [out processedCount rand_calls].
  rewrite H0. cbn [out processedCount rand_calls].
  rewrite length_app. cbn [List.length]. rewrite Nat.add_comm, H1.
  cbn [out processedCount rand_calls].
  rewrite !length_app. cbn [List.length].
  replace (List.length (out st) + 1 + 1)%nat with (2 + List.length (out st))%nat by lia.
  rewrite H2. cbn [out processedCount rand_calls].
  rewrite header_text. rewrite <- !app_assoc. reflexivity.
Qed.

(** Unfold the iteration up to the writes. *)
Ltac enter_body Hne Hrej Hrl Hg :=
  unfold body, generateRequestID, Fprintf;
  rewrite (proj2 (is_empty_false _) Hne), Hrej, Hrl, Hg;
  cbn [out processedCount rand_calls].

Ltac next_write H :=
  cbn [Nat.add] in H;
  rewrite ?length_app; cbn [List.length]; rewrite ?Nat.add_1_r;
  rewrite H; cbn [out processedCount rand_calls].

Lemma body_iteration st line : iteration w p rnd st line (body w p rnd st line).
Proof.
  destruct (is_empty line) eqn:Hne.
  { unfold body. rewrite Hne. apply it_empty. now destruct line. }
  apply is_empty_false in Hne.
  destruct (rejected p line) eqn:Hrej.
  { unfold body. rewrite (proj2 (is_empty_false _) Hne), Hrej.
    now apply it_rejected. }
  destruct (requestLineOf line) as [rl|] eqn:Hrl.
  2:{ unfold body. rewrite (proj2 (is_empty_false _) Hne), Hrej, Hrl.
      now apply it_no_request. }
  destruct (rnd (rand_calls st)) as [e|g] eqn:Hg.
  { enter_body Hne Hrej Hrl Hg. now apply (it_no_id w p rnd st line rl e). }
  pose proof (it_write_failed w p rnd st line rl g) as Hfail.
  cbv zeta in Hfail.
  destruct (w (0 + List.length (out st))%nat) as [[n e]|] eqn:H0.
  { specialize (Hfail 0%nat n e Hne Hrej Hrl Hg).
    cbn [firstn nth record app] in Hfail.
    enter_body Hne Hrej Hrl Hg. next_write H0. rewrite header_text.
    apply Hfail; [lia | intros; lia | assumption]. }
  destruct (w (1 + List.length (out st))%nat) as [[n e]|] eqn:H1.
  { specialize (Hfail 1%nat n e Hne Hrej Hrl Hg).
    cbn [firstn nth record app] in Hfail.
    enter_body Hne Hrej Hrl Hg. next_write H0. next_write H1.
    rewrite header_text, <- app_assoc.
    apply Hfail; [lia | | assumption].
    intros i Hi. assert (i = 0)%nat as -> by lia. assumption. }
  destruct (w (2 + List.length (out st))%nat) as [[n e]|] eqn:H2.
  { specialize (Hfail 2%nat n e Hne Hrej Hrl Hg).
    cbn [firstn nth record app] in Hfail.
    enter_body Hne Hrej Hrl Hg. next_write H0. next_write H1. next_write H2.
    rewrite header_text, <- !app_assoc.
    apply Hfail; [lia | | assumption].
    intros i Hi. assert (i = 0 \/ i = 1)%nat as [-> | ->] by lia; assumption. }
  rewrite (body_emit st line rl g); try assumption.
  apply it_emitted; try assumption.
  intros i Hi.
  assert (i = 0 \/ i = 1 \/ i = 2)%nat as [-> | [-> | ->]] by lia; assumption.
Qed.
End BodyLemmas.

(** ** Request identifiers *)

Lemma hex_digit_lower (n : nat) : (n < 16)%nat -> is_lower_hex (hex_digit n) = true.
Proof.
  intros H. do 16 (destruct n as [|n]; [reflexivity|]). lia.
Qed.

Lemma EncodeToString_length (src : list ascii) :
  String.length (EncodeToString src) = (2 * List.length src)%nat.
Proof. induction src as [|v src IH]; simpl; [reflexivity | rewrite IH; lia]. Qed.

Lemma EncodeToString_hex (src : list ascii) :
  forallb_str is_lower_hex (EncodeToString src) = true.
Proof.
  induction src as [|v src IH]; cbn [EncodeToString forallb_str]; [reflexivity|].
  pose proof (nat_ascii_bounded v) as Hb.
  rewrite !hex_digit_lower, IH; [reflexivity | |].
  - apply Nat.mod_upper_bound. lia.
  - apply Nat.Div0.div_lt_upper_bound. lia.
Qed.

Lemma reqID_of_length (g : nat -> ascii) : String.length (reqID_of g) = 24%nat.
Proof. unfold reqID_of. now rewrite EncodeToString_length, length_map, length_seq. Qed.

Lemma reqID_of_hex (g : nat -> ascii) : forallb_str is_lower_hex (reqID_of g) = true.
Proof. apply EncodeToString_hex. Qed.

(** The identifier read back gives the bytes it was made from. *)
Lemma hex_value_digit (n : nat) : (n < 16)%nat -> hex_value (hex_digit n) = Some n.
Proof.
  intros H.
  do 16 (destruct n as [|n]; [reflexivity|]). lia.
Qed.

Lemma hex_bytes_EncodeToString (src : list ascii) :
  hex_bytes (EncodeToString src) = Some src.
Proof.
  induction src as [|v src IH]; cbn [EncodeToString hex_bytes]; [reflexivity|].
  pose proof (nat_ascii_bounded v) as Hb.
  rewrite !hex_value_digit, IH.
  - rewrite <- Nat.div_mod_eq. now rewrite ascii_nat_embedding.
  - apply Nat.mod_upper_bound. lia.
  - apply Nat.Div0.div_lt_upper_bound. lia.
Qed.

Lemma hex_bytes_reqID (g : nat -> ascii) :
  hex_bytes (reqID_of g) = Some (map g (seq 0 12)).
Proof. apply hex_bytes_EncodeToString. Qed.

(** ** Claims about one line *)

Section LineClaims.
Variable w : Writer.
Variable p : RegexParser.
Variable rnd : RandSource.

(** A counted line is an emitted line. *)
Lemma body_counted st line st' :
  body w p rnd st line = Continue st' ->
  processedCount st' <> processedCount st ->
  exists rl g,
    line <> EmptyString /\ rejected p line = false /\
    requestLineOf line = Some rl /\ rnd (rand_calls st) = inr g /\
    (forall i, (i < 3)%nat -> w (i + List.length (out st))%nat = None) /\
    st' = mkState (wrap64 (processedCount st + 1))
                  (out st ++ record (reqID_of g) (timestampOf line) rl)
                  (S (rand_calls st)).
Proof.
  intros Hb Hc. pose proof (body_iteration w p rnd st line) as Hi.
  rewrite Hb in Hi. inversion Hi; subst; try (now elim Hc).
  exists rl, g. repeat split; auto.
Qed.

Lemma requestLineOf_Some line rl :
  requestLineOf line = Some rl ->
  exists pre m path proto rest,
    first_request line pre m path proto rest /\ rl = request_text m path proto.
Proof.
  intros H.
  assert (Hq : has_quoted_request line).
  { destruct (requestLineOf_None line) as [_ Hn].
    apply Decidable.not_not.
    - unfold Decidable.decidable. 
      destruct (FindStringSubmatch re line) eqn:E.
      + right. now apply FindStringSubmatch_re_nil.
      + left. apply has_quoted_request_first, FindStringSubmatch_re_inv. congruence.
    - intros Hnq. rewrite (Hn Hnq) in H. discriminate. }
  apply has_quoted_request_first in Hq as (pre & m & path & proto & rest & Hf).
  exists pre, m, path, proto, rest. split; [assumption|].
  rewrite (requestLineOf_first _ _ _ _ _ _ Hf) in H. now injection H.
Qed.

Lemma timestampOf_unknown line :
  List.length (FindStringSubmatch timeRe line) <> 2%nat \/
  parseUnixNano (nth 1 (FindStringSubmatch timeRe line) EmptyString) = None ->
  timestampOf line = 0.
Proof.
  unfold timestampOf. intros [H | H].
  - apply Nat.eqb_neq in H. now rewrite H.
  - rewrite H. now destruct (Nat.eqb _ 2).
Qed.

(** C2: a converted line adds exactly the three segments of one record to
    the output: the header [1 <requestID> <timestampNanos> 0] with a
    24-character hexadecimal identifier and the decimal timestamp (zero
    when unknown), the request line of the first quoted request followed
    by CR LF CR LF LF, and the three-code-point delimiter followed by a
    line feed; the three writes are consecutive calls that succeed. *)
Theorem C2_record_framing st line st' :
  body w p rnd st line = Continue st' ->
  processedCount st' <> processedCount st ->
  exists reqID pre m path proto rest,
    first_request line pre m path proto rest /\
    String.length reqID = 24%nat /\
    forallb_str is_lower_hex reqID = true /\
    out st' =
      (out st ++
       [ header_line reqID (timestampOf line);
         request_segment (request_text m path proto);
         delimiter_line ])%list /\
    (forall i, (i < 3)%nat -> w (i + List.length (out st))%nat = None) /\
    gorPayloadDelimiter = utf8 [128053; 128584; 128585] /\
    (List.length (FindStringSubmatch timeRe line) <> 2%nat \/
     parseUnixNano (nth 1 (FindStringSubmatch timeRe line) EmptyString) = None ->
     timestampOf line = 0).
Proof.
  intros Hb Hc.
  destruct (body_counted st line st' Hb Hc)
    as (rl & g & _ & _ & Hrl & _ & Hw & ->).
  destruct (requestLineOf_Some line rl Hrl)
    as (pre & m & path & proto & rest & Hf & ->).
  exists (reqID_of g), pre, m, path, proto, rest.
  repeat split; auto using reqID_of_length, reqID_of_hex, timestampOf_unknown;
    apply Hf.
Qed.


(** C7: the identifier is the hexadecimal text of the twelve bytes read
    from the random source: 24 characters of [0-9a-f] of which each pair,
    read as a two-digit hexadecimal numeral, is the value of the byte at
    that place; each emitted record carries such an identifier; when the
    random source fails the line adds no record and is not counted. *)
Theorem C7_request_id st line :
  (forall g, rnd (rand_calls st) = inr g ->
     let bytes := map g (seq 0 12) in
     snd (generateRequestID rnd st) = inr (EncodeToString bytes) /\
     List.length bytes = 12%nat /\
     String.length (EncodeToString bytes) = 24%nat /\
     forallb_str is_lower_hex (EncodeToString bytes) = true /\
     hex_bytes (EncodeToString bytes) = Some bytes) /\
  (forall st', body w p rnd st line = Continue st' -> out st' <> out st ->
     exists g reqID rl,
       rnd (rand_calls st) = inr g /\
       reqID = EncodeToString (map g (seq 0 12)) /\
       String.length reqID = 24%nat /\
       forallb_str is_lower_hex reqID = true /\
       hex_bytes reqID = Some (map g (seq 0 12)) /\
       out st' = (out st ++ record reqID (timestampOf line) rl)%list) /\
  (forall e, rnd (rand_calls st) = inl e ->
     exists st', body w p rnd st line = Continue st' /\
                 processedCount st' = processedCount st /\
                 out st' = out st).
Proof.
  split; [|split].
  - intros g Hg bytes. unfold generateRequestID. rewrite Hg. cbn [snd].
    split; [reflexivity | split; [|split; [|split]]].
    + unfold bytes. now rewrite length_map, length_seq.
    + apply (reqID_of_length g).
    + apply (reqID_of_hex g).
    + apply (hex_bytes_reqID g).
  - intros st' Hb Hout. pose proof (body_iteration w p rnd st line) as Hi.
    rewrite Hb in Hi. inversion Hi; subst; try (now elim Hout).
    exists g, (reqID_of g), rl.
    auto 10 using reqID_of_length, reqID_of_hex, hex_bytes_reqID.
  - intros e He. pose proof (body_iteration w p rnd st line) as Hi.
    inversion Hi; subst; try congruence; eauto.
Qed.
End LineClaims.

(** C10: the submatches are those of the first quoted request line: the
    path is the run of non-space bytes between the two spaces, the protocol
    the run of bytes up to the next double quote, and the request line is
    the text between the quotes. *)
Theorem C10_first_match :
  (forall line whole m path proto,
     FindStringSubmatch re line = [whole; m; path; proto] ->
     exists pre rest,
       first_request line pre m path proto rest /\
       line = pre ++ q ++ request_text m path proto ++ q ++ rest /\
       whole = q ++ request_text m path proto ++ q /\
       requestLineOf line = Some (request_text m path proto)) /\
  FindStringSubmatch re (q ++ "GET /a b c HTTP/1.1" ++ q) =
    [q ++ "GET /a b c HTTP/1.1" ++ q; "GET"; "/a"; "b c HTTP/1.1"].
Proof.
  split; [|reflexivity].
  intros line whole m path proto H.
  assert (Hne : FindStringSubmatch re line <> []) by congruence.
  apply FindStringSubmatch_re_inv in Hne as (pre & m' & path' & proto' & rest & Hf).
  pose proof (FindStringSubmatch_re_first _ _ _ _ _ _ Hf) as E.
  rewrite H in E. injection E as -> -> -> ->.
  exists pre, rest. split; [assumption|]. split; [apply Hf|].
  split; [reflexivity|]. exact (requestLineOf_first _ _ _ _ _ _ Hf).
Qed.

(** ** The loop *)

Section LoopClaims.
Variable w : Writer.
Variable p : RegexParser.
Variable rnd : RandSource.

Lemma loop_app st l1 l2 :
  loop w p rnd st (l1 ++ l2) =
  match loop w p rnd st l1 with
  | Continue st' => loop w p rnd st' l2
  | Return st' e => Return st' e
  end.
Proof.
  revert st; induction l1 as [|line l1 IH]; intros st; cbn [loop app].
  - reflexivity.
  - destruct (body w p rnd st line); [apply IH | reflexivity].
Qed.

(** C3 (amended): a non-empty line that the parser accepts, that has a
    quoted request line and whose timestamp is not matched or not parsed
    is not skipped: when the identifier is generated and the three writes
    succeed, the iteration writes the record of its first quoted request
    with timestamp zero and counts the line. *)
Theorem C3_zero_timestamp st line g :
  line <> EmptyString ->
  rejected p line = false ->
  has_quoted_request line ->
  List.length (FindStringSubmatch timeRe line) <> 2%nat \/
  parseUnixNano (nth 1 (FindStringSubmatch timeRe line) EmptyString) = None ->
  rnd (rand_calls st) = inr g ->
  (forall i, (i < 3)%nat -> w (i + List.length (out st))%nat = None) ->
  exists pre m path proto rest,
    first_request line pre m path proto rest /\
    body w p rnd st line =
    Continue (mkState (wrap64 (processedCount st + 1))
                      (out st ++ record (reqID_of g) 0 (request_text m path proto))
                      (S (rand_calls st))).
Proof.
  intros Hne Hrej Hq Ht Hg Hw.
  apply has_quoted_request_first in Hq as (pre & m & path & proto & rest & Hf).
  exists pre, m, path, proto, rest. split; [assumption|].
  rewrite (body_emit w p rnd st line (request_text m path proto) g Hne Hrej
             (requestLineOf_first _ _ _ _ _ _ Hf) Hg
             (Hw 0%nat ltac:(lia)) (Hw 1%nat ltac:(lia)) (Hw 2%nat ltac:(lia))).
  now rewrite (timestampOf_unknown line Ht).
Qed.

(** C5: when the write of segment [j] of a record fails, [processLogs]
    returns at once: the count is the count before this line, the error
    names the segment that failed, and nothing of the following lines is
    looked at. *)
Theorem C5_write_failure sc l1 line rest st rl g j n e :
  tokens sc = (l1 ++ line :: rest)%list ->
  loop w p rnd init l1 = Continue st ->
  line <> EmptyString ->
  rejected p line = false ->
  requestLineOf line = Some rl ->
  rnd (rand_calls st) = inr g ->
  (j < 3)%nat ->
  (forall i, (i < j)%nat -> w (i + List.length (out st))%nat = None) ->
  w (j + List.length (out st))%nat = Some (n, e) ->
  let o := run w p rnd sc in
  let rec := record (reqID_of g) (timestampOf line) rl in
  count o = processedCount st /\
  err o = Some (ErrWrap (segment_error j) e) /\
  out (final o) = (out st ++ firstn j rec ++ [take n (nth j rec EmptyString)])%list /\
  rand_calls (final o) = S (rand_calls st).
Proof.
  intros Htok Hl1 Hne Hrej Hrl Hg Hj Hok Hfail o rec.
  assert (Hb : body w p rnd st line =
               Return (mkState (processedCount st)
                               (out st ++ firstn j rec ++ [take n (nth j rec EmptyString)])
                               (S (rand_calls st)))
                      (ErrWrap (segment_error j) e)).
  { pose proof (body_iteration w p rnd st line) as Hi.
    inversion Hi as [ | | | | rl' g' j' n' e' _ _ Hrl' Hg' Hj' Hok' Hfail' | rl' g' _ _ Hrl' Hg' Hok' ];
      subst; try congruence.
    - rewrite Hrl in Hrl'. injection Hrl' as <-.
      rewrite Hg in Hg'. injection Hg' as <-.
      assert (j' = j) as ->.
      { destruct (Nat.lt_trichotomy j' j) as [Hlt | [Heq | Hgt]]; [|assumption|].
        - rewrite (Hok j' Hlt) in Hfail'. discriminate.
        - rewrite (Hok' j Hgt) in Hfail. discriminate. }
      rewrite Hfail in Hfail'. injection Hfail' as <- <-. reflexivity.
    - rewrite (Hok' j Hj) in Hfail. discriminate. }
  subst o. unfold run. rewrite Htok, loop_app, Hl1. cbn [loop]. rewrite Hb.
  cbn [count err final out rand_calls processedCount]. auto.
Qed.

(** Every early return of the loop is a failed write of one of the three
    segments. *)
Lemma loop_Return st lines st' e :
  loop w p rnd st lines = Return st' e ->
  exists j n e0,
    (j < 3)%nat /\ e = ErrWrap (segment_error j) e0 /\
    w (List.length (out st') - 1)%nat = Some (n, e0).
Proof.
  revert st; induction lines as [|line lines IH]; intros st; cbn [loop].
  - discriminate.
  - pose proof (body_iteration w p rnd st line) as Hi.
    destruct (body w p rnd st line) as [st1|st1 e1]; [apply IH|].
    intros H; injection H as <- <-.
    inversion Hi as [ | | | | rl g j n e0 _ _ _ _ Hj _ Hfail | ]; subst.
    exists j, n, e0. repeat split; auto. cbn [out].
    rewrite !length_app, length_firstn. cbn [List.length].
    change (List.length rec) with 3%nat.
    replace (List.length (out st) + (Nat.min j 3 + 1) - 1)%nat
      with (j + List.length (out st))%nat by lia.
    assumption.
Qed.

(** Without write failures the loop runs to the end of the input. *)
Lemma loop_Continue st lines :
  (forall i, w i = None) -> exists st', loop w p rnd st lines = Continue st'.
Proof.
  intros Hw. destruct (loop w p rnd st lines) as [st'|st' e] eqn:E; [eauto|].
  apply loop_Return in E as (j & n & e0 & _ & _ & H). now rewrite Hw in H.
Qed.
End LoopClaims.

(** C1: the end-to-end scenario.  With a parser that accepts the line, a
    random source that delivers twelve bytes and a writer that takes the
    three writes, the line (with or without line terminator) yields one
    record: the header with the timestamp 1759321811000000000, which is
    12:30:11 on 2025-10-01 read as UTC whatever the offset field says, the
    request line followed by CR LF CR LF LF, and the delimiter followed by
    a line feed. *)
Theorem C1_end_to_end (w : Writer) (p : RegexParser) (rnd : RandSource)
        (g : nat -> ascii) (eol : string) :
  rejected p sample_line = false ->
  rnd 0%nat = inr g ->
  (forall i, (i < 3)%nat -> w i = None) ->
  In eol [EmptyString; str1 LF; String CR (str1 LF)] ->
  let o := processLogs w p rnd (mkReader (sample_line ++ eol) None) in
  count o = 1 /\ err o = None /\
  out (final o) = sample_record g /\
  unixSec 2025 10 1 12 30 11 * 1000000000 = 1759321811000000000 /\
  sample_line = sample_with_offset "+0000" /\
  (forall off, off <> EmptyString -> no_byte rbracket off ->
               timestampOf (sample_with_offset off) = 1759321811000000000).
Proof.
  intros Hrej Hg Hw Heol o.
  assert (Hsc : NewScanner (mkReader (sample_line ++ eol) None)
                = mkScanner [sample_line] None).
  { cbn [In] in Heol.
    destruct Heol as [<- | [<- | [<- | []]]]; vm_compute; reflexivity. }
  assert (Hb : body w p rnd init sample_line =
               Continue (mkState 1 (sample_record g) 1)).
  { assert (Hne : sample_line <> EmptyString) by discriminate.
    assert (Hrl : requestLineOf sample_line = Some "GET /api/v1/users HTTP/1.1")
      by reflexivity.
    rewrite (body_emit w p rnd init sample_line _ g Hne Hrej Hrl Hg
               (Hw 0%nat ltac:(lia)) (Hw 1%nat ltac:(lia)) (Hw 2%nat ltac:(lia))).
    reflexivity. }
  subst o. unfold processLogs. rewrite Hsc. unfold run. cbn [tokens loop Err].
  rewrite Hb. cbn [count err final out processedCount].
  repeat split; try reflexivity.
  intros off Hoff Hrun. unfold sample_with_offset.
  rewrite timestampOf_field; [reflexivity | reflexivity |].
  repeat split; assumption.
Qed.

(** ** Line feeds in the output *)

Lemma no_byte_app (c : ascii) (a b : string) :
  no_byte c (a ++ b) <-> no_byte c a /\ no_byte c b.
Proof.
  unfold no_byte. induction a as [|x a IH]; simpl.
  - tauto.
  - rewrite !andb_true_iff, IH. tauto.
Qed.

Lemma forallb_str_impl (f g : ascii -> bool) (s : string) :
  (forall c, f c = true -> g c = true) ->
  forallb_str f s = true -> forallb_str g s = true.
Proof.
  intros H. induction s as [|c s IH]; simpl; [reflexivity|].
  rewrite !andb_true_iff. intros [Hc Hs]. auto.
Qed.

Lemma dropCR_prefix (s : string) : exists t, s = dropCR s ++ t.
Proof.
  induction s as [|c s IH]; [now exists EmptyString|].
  cbn [dropCR]. destruct s as [|c' s'].
  - destruct (Ascii.eqb c CR); [now exists (str1 c) | now exists EmptyString].
  - destruct IH as [t Ht]. exists t. cbn [append]. now rewrite <- Ht.
Qed.

Lemma no_byte_dropCR (c : ascii) (s : string) : no_byte c s -> no_byte c (dropCR s).
Proof.
  destruct (dropCR_prefix s) as [t Ht]. rewrite Ht at 1.
  now intros [H _]%no_byte_app.
Qed.

(** The scanner's tokens hold no line feed. *)
Lemma scan_lines_no_LF (s cur : string) :
  no_byte LF cur -> Forall (no_byte LF) (fst (scan_lines cur s)).
Proof.
  revert cur; induction s as [|c s IH]; intros cur Hcur; cbn [scan_lines].
  - destruct (is_empty cur); cbn [fst]; auto using no_byte_dropCR.
  - destruct (Ascii.eqb c LF) eqn:Ec.
    + specialize (IH EmptyString eq_refl).
      destruct (scan_lines EmptyString s) as [ls e]. cbn [fst] in *.
      constructor; auto using no_byte_dropCR.
    + destruct (MaxScanTokenSize <=? String.length cur + 1)%nat; [constructor|].
      apply IH. apply no_byte_app. split; [assumption|].
      unfold no_byte, str1. cbn [forallb_str]. now rewrite Ec.
Qed.

Lemma tokens_no_LF (r : Reader) : Forall (no_byte LF) (tokens (NewScanner r)).
Proof.
  unfold NewScanner.
  pose proof (scan_lines_no_LF (data r) EmptyString eq_refl) as H.
  now destruct (scan_lines EmptyString (data r)).
Qed.

(** A line of [MaxScanTokenSize] bytes or more stops the scan. *)
Lemma scan_lines_too_long (s cur : string) :
  no_byte LF s ->
  (MaxScanTokenSize <= String.length cur + String.length s)%nat ->
  (String.length cur < MaxScanTokenSize)%nat ->
  scan_lines cur s = ([], Some ErrTooLong).
Proof.
  revert cur; induction s as [|c s IH]; intros cur Hs Hlen Hcur.
  - cbn [String.length] in Hlen. lia.
  - cbn [scan_lines]. unfold no_byte in Hs. cbn [forallb_str] in Hs.
    apply andb_true_iff in Hs as [Hc Hs]. apply negb_true_iff in Hc. rewrite Hc.
    destruct (MaxScanTokenSize <=? String.length cur + 1)%nat eqn:E; [reflexivity|].
    apply Nat.leb_gt in E. apply IH; [exact Hs | |];
      rewrite length_append; unfold str1; cbn [String.length] in *; lia.
Qed.

Lemma lines_of_line (l cur s : string) :
  no_byte LF l ->
  lines_of cur (l ++ String LF s) = (cur ++ l) :: lines_of EmptyString s.
Proof.
  revert cur; induction l as [|c l IH]; intros cur Hl; cbn [append lines_of].
  - rewrite Ascii.eqb_refl. now rewrite append_nil_r.
  - unfold no_byte in Hl. cbn [forallb_str] in Hl.
    apply andb_true_iff in Hl as [Hc Hl].
    apply negb_true_iff in Hc. rewrite Hc, (IH _ Hl).
    unfold str1. now rewrite append_assoc.
Qed.

(** Decimal digits of [fmt_d]. *)
Lemma digit_char_spec (d : Z) :
  0 <= d < 10 -> is_digit (digit_char d) = true /\ digit_val (digit_char d) = d.
Proof.
  intros H.
  assert (d = 0 \/ d = 1 \/ d = 2 \/ d = 3 \/ d = 4 \/ d = 5 \/ d = 6 \/
          d = 7 \/ d = 8 \/ d = 9) as Hd by lia.
  repeat (destruct Hd as [-> | Hd]; [now split|]). now subst d.
Qed.

Lemma fmt_digits_digits (fuel : nat) (n : Z) (acc : string) :
  0 <= n -> forallb_str is_digit acc = true ->
  forallb_str is_digit (fmt_digits fuel n acc) = true.
Proof.
  revert n acc; induction fuel as [|fuel IH]; intros n acc Hn Hacc;
    cbn [fmt_digits];
    assert (Hd : is_digit (digit_char (n mod 10)) = true)
      by (apply digit_char_spec, Z.mod_pos_bound; lia).
  - cbn [forallb_str]. now rewrite Hd.
  - destruct (n <? 10).
    + cbn [forallb_str]. now rewrite Hd.
    + apply IH; [apply Z.div_pos; lia|]. cbn [forallb_str]. now rewrite Hd.
Qed.

Lemma fmt_d_no_LF (z : Z) : no_byte LF (fmt_d z).
Proof.
  unfold fmt_d.
  assert (H : no_byte LF (fmt_digits (Z.to_nat (Z.log2 (Z.abs z))) (Z.abs z) EmptyString)).
  { apply (forallb_str_impl is_digit).
    - intros c Hc. destruct (Ascii.eqb c LF) eqn:E; [|reflexivity].
      apply Ascii.eqb_eq in E. subst c. discriminate.
    - apply fmt_digits_digits; [lia | reflexivity]. }
  destruct (z <? 0); [|assumption].
  unfold no_byte in *. cbn [forallb_str]. now rewrite H.
Qed.

(** [fmt_d] writes the decimal numeral: the digits read back give the
    absolute value, and a negative number has a minus sign in front. *)
Lemma fmt_digits_value (fuel : nat) (n : Z) (acc : string) (a : Z) :
  0 <= n -> (n < 10 \/ Z.log2 n <= Z.of_nat fuel) ->
  exists k, 0 < k /\ n < 10 ^ k /\
  atoi_digits a (fmt_digits fuel n acc) = atoi_digits (a * 10 ^ k + n) acc.
Proof.
  revert n acc a; induction fuel as [|fuel IH]; intros n acc a Hn Hf.
  - assert (Hlt : n < 10).
    { destruct Hf as [|Hf]; [assumption|].
      destruct (Z.eq_dec n 0) as [->|]; [lia|].
      assert (n < 2 ^ 1) by (apply Z.log2_lt_pow2; lia). lia. }
    exists 1. cbn [fmt_digits atoi_digits].
    rewrite Z.mod_small by lia.
    destruct (digit_char_spec n ltac:(lia)) as [-> ->]. repeat split; lia.
  - cbn [fmt_digits]. destruct (n <? 10) eqn:E.
    + apply Z.ltb_lt in E. exists 1. cbn [atoi_digits].
      rewrite Z.mod_small by lia.
      destruct (digit_char_spec n ltac:(lia)) as [-> ->]. repeat split; lia.
    + apply Z.ltb_ge in E.
      assert (Hlog : Z.log2 (n / 10) <= Z.of_nat fuel).
      { destruct Hf as [|Hf]; [lia|].
        assert (n / 10 <= n / 2 ^ 1) by (apply Z.div_le_compat_l; lia).
        assert (Z.log2 (n / 10) <= Z.log2 (n / 2 ^ 1)) by (apply Z.log2_le_mono; lia).
        rewrite <- Z.shiftr_div_pow2, Z.log2_shiftr in H0 by lia. lia. }
      destruct (IH (n / 10) (String (digit_char (n mod 10)) acc) a
                   ltac:(apply Z.div_pos; lia) (or_intror Hlog))
        as (k & Hk & Hlt & Heq).
      exists (k + 1). rewrite Heq. cbn [atoi_digits].
      destruct (digit_char_spec (n mod 10) ltac:(apply Z.mod_pos_bound; lia)) as [-> ->].
      rewrite Z.pow_add_r by lia. change (10 ^ 1) with 10.
      pose proof (Z.div_mod n 10 ltac:(lia)) as Hdm.
      pose proof (Z.mod_pos_bound n 10 ltac:(lia)) as Hmb.
      split; [lia | split; [nia | f_equal; nia]].
Qed.

Lemma fmt_d_decimal (z : Z) :
  exists digits,
    fmt_d z = (if z <? 0 then String "-" digits else digits) /\
    atoi_digits 0 digits = Some (Z.abs z).
Proof.
  unfold fmt_d. eexists. split; [reflexivity|].
  destruct (fmt_digits_value (Z.to_nat (Z.log2 (Z.abs z))) (Z.abs z)
              EmptyString 0 (Z.abs_nonneg z)) as (k & _ & _ & ->).
  - right. rewrite Z2Nat.id; [lia | apply Z.log2_nonneg].
  - reflexivity.
Qed.

(** ** Records in the output *)

Lemma last_byte_app (a : string) (c : ascii) : last_byte (a ++ str1 c) = Some c.
Proof.
  induction a as [|x a IH]; [reflexivity|].
  cbn [append last_byte]. rewrite IH. now destruct (a ++ str1 c).
Qed.

Lemma stream_app (a b : list string) : stream (a ++ b) = stream a ++ stream b.
Proof.
  induction a as [|x a IH]; cbn [stream app fold_right]; [reflexivity|].
  fold (stream (a ++ b)). fold (stream a). now rewrite IH, append_assoc.
Qed.

Lemma record_stream (id : string) (ts : Z) (rl s : string) :
  stream (record id ts rl) ++ s =
  ("1 " ++ id ++ " " ++ fmt_d ts ++ " 0") ++
  String LF ((rl ++ str1 CR) ++
  String LF (str1 CR ++
  String LF (EmptyString ++
  String LF (gorPayloadDelimiter ++ String LF s)))).
Proof.
  unfold record, stream, header_line, request_segment, delimiter_line, str1.
  cbn [fold_right]. rewrite append_nil_r.
  repeat (progress (cbn [append]; rewrite ?append_assoc)). reflexivity.
Qed.

Lemma lines_of_record (id : string) (ts : Z) (rl s : string) :
  no_byte LF id -> no_byte LF rl ->
  lines_of EmptyString (stream (record id ts rl) ++ s) =
  ("1 " ++ id ++ " " ++ fmt_d ts ++ " 0") :: (rl ++ str1 CR) :: str1 CR
    :: EmptyString :: gorPayloadDelimiter :: lines_of EmptyString s.
Proof.
  intros Hid Hrl. rewrite record_stream.
  rewrite !lines_of_line; cbn [append]; try reflexivity.
  - apply no_byte_app. split; [assumption | reflexivity].
  - change ("1 " ++ id ++ " " ++ fmt_d ts ++ " 0")
      with (String "1" (String " " (id ++ String " " (fmt_d ts ++ " 0")))).
    change (String "1" (String " " (id ++ String " " (fmt_d ts ++ " 0"))))
      with ("1 " ++ (id ++ (" " ++ (fmt_d ts ++ " 0")))).
    repeat (apply no_byte_app; split); auto using fmt_d_no_LF; reflexivity.
Qed.

Lemma delimiter_lines_records (recs : list (string * Z * string)) :
  Forall wf_record recs ->
  delimiter_lines (stream (flat_map render recs)) = List.length recs.
Proof.
  unfold delimiter_lines. induction 1 as [|[[id ts] rl] recs [Hid Hrl] _ IH].
  - reflexivity.
  - cbn [flat_map render]. rewrite stream_app, lines_of_record by assumption.
    cbn [count_occ List.length].
    destruct (string_dec _ gorPayloadDelimiter) as [E|_]; [discriminate|].
    destruct (string_dec (rl ++ str1 CR) gorPayloadDelimiter) as [E|_].
    { apply (f_equal last_byte) in E. rewrite last_byte_app in E. discriminate. }
    destruct (string_dec (str1 CR) gorPayloadDelimiter) as [E|_]; [discriminate|].
    destruct (string_dec EmptyString gorPayloadDelimiter) as [E|_]; [discriminate|].
    destruct (string_dec gorPayloadDelimiter gorPayloadDelimiter) as [_|E];
      [|now elim E].
    now rewrite IH.
Qed.

Lemma hex_no_LF (id : string) : forallb_str is_lower_hex id = true -> no_byte LF id.
Proof.
  apply forallb_str_impl. intros c Hc.
  destruct (Ascii.eqb c LF) eqn:E; [|reflexivity].
  apply Ascii.eqb_eq in E. subst c. discriminate.
Qed.

Lemma requestLine_no_LF (line rl : string) :
  no_byte LF line -> requestLineOf line = Some rl -> no_byte LF rl.
Proof.
  intros Hline H.
  apply requestLineOf_Some in H as (pre & m & path & proto & rest & (Hs & _) & ->).
  rewrite Hs in Hline.
  apply no_byte_app in Hline as [_ Hline].
  apply no_byte_app in Hline as [_ Hline].
  now apply no_byte_app in Hline as [Hline _].
Qed.

Lemma wrap64_small (z : Z) : - 2 ^ 63 <= z < 2 ^ 63 -> wrap64 z = z.
Proof. intros H. unfold wrap64. rewrite Z.mod_small; lia. Qed.

Section CountClaims.
Variable w : Writer.
Variable p : RegexParser.
Variable rnd : RandSource.

(** The loop keeps the counter equal to the number of records whose three
    segments were written; an early return leaves the segments of an
    unfinished record behind. *)
Lemma loop_records (lines : list string) :
  Forall (no_byte LF) lines ->
  forall st recs,
    out st = flat_map render recs ->
    processedCount st = Z.of_nat (List.length recs) ->
    Forall wf_record recs ->
    Z.of_nat (List.length recs + List.length lines) < 2 ^ 63 ->
    exists recs' partial,
      Forall wf_record recs' /\
      match loop w p rnd st lines with
      | Continue st' =>
          partial = [] /\
          out st' = flat_map render recs' /\
          processedCount st' = Z.of_nat (List.length recs')
      | Return st' e =>
          partial <> [] /\
          out st' = (flat_map render recs' ++ partial)%list /\
          processedCount st' = Z.of_nat (List.length recs')
      end.
Proof.
  induction 1 as [|line lines Hline Hlines IH]; intros st recs Hout Hcnt Hwf Hlt.
  - exists recs, []. cbn [loop]. auto.
  - cbn [loop]. cbn [List.length] in Hlt.
    pose proof (body_iteration w p rnd st line) as Hi.
    destruct (body w p rnd st line) as [st1|st1 e1].
    + inversion Hi as [ | | | rl e _ _ _ _ | | rl g _ _ Hrl _ _ ]; subst.
      * apply (IH st1 recs); auto; lia.
      * apply (IH st1 recs); auto; lia.
      * apply (IH st1 recs); auto; lia.
      * apply (IH _ recs); auto; lia.
      * apply (IH _ (recs ++ [(reqID_of g, timestampOf line, rl)])%list).
        -- cbn [out]. rewrite flat_map_app, Hout. cbn [flat_map render].
           now rewrite app_nil_r.
        -- cbn [processedCount]. rewrite Hcnt, length_app. cbn [List.length].
           rewrite wrap64_small; lia.
        -- apply Forall_app. split; [assumption|]. constructor; [|constructor].
           split; [apply hex_no_LF, reqID_of_hex|].
           eapply requestLine_no_LF; eauto.
        -- rewrite length_app. cbn [List.length]. lia.
    + inversion Hi as [ | | | | rl g j n e0 _ _ _ _ _ _ _ | ]; subst.
      exists recs, (firstn j rec ++ [take n (nth j rec EmptyString)])%list.
      split; [assumption|]. cbn [out processedCount]. repeat split.
      * intros E. now apply app_eq_nil in E as [_ E].
      * now rewrite Hout.
      * assumption.
Qed.

(** C9: the returned count is the number of records whose three segments
    were written; whatever else is in the output belongs to a record cut
    short by a failed write, which comes with an error.  On a nil error the
    output holds exactly count delimiter lines.  Empty input: count zero
    and no output. *)
Theorem C9_count_is_records (r : Reader) :
  Z.of_nat (List.length (tokens (NewScanner r))) < 2 ^ 63 ->
  let o := processLogs w p rnd r in
  (exists recs partial,
     out (final o) = (flat_map render recs ++ partial)%list /\
     count o = Z.of_nat (List.length recs) /\
     (partial <> [] -> err o <> None) /\
     (err o = None ->
      partial = [] /\
      delimiter_lines (stream (out (final o))) = List.length recs)) /\
  (data r = EmptyString -> count o = 0 /\ stream (out (final o)) = EmptyString).
Proof.
  intros Hlt o. split.
  - destruct (loop_records (tokens (NewScanner r)) (tokens_no_LF r) init []
                eq_refl eq_refl (Forall_nil _) Hlt)
      as (recs & partial & Hwf & H).
    exists recs, partial. subst o. unfold processLogs, run.
    destruct (loop w p rnd init (tokens (NewScanner r))) as [st|st e].
    + destruct H as (-> & Hout & Hcnt). rewrite app_nil_r.
      destruct (Err (NewScanner r)); cbn [out final count err];
        repeat split; auto; try congruence.
      rewrite Hout. now apply delimiter_lines_records.
    + destruct H as (Hp & Hout & Hcnt). cbn [out final count err].
      repeat split; auto; congruence.
  - intros Hd. subst o. unfold processLogs, NewScanner. rewrite Hd.
    cbn [scan_lines is_empty]. unfold run. cbn [tokens loop Err].
    now destruct (read_err r).
Qed.
End CountClaims.

(** ** Two runs over the same input *)

Lemma take_all (n : nat) (s : string) : (String.length s <= n)%nat -> take n s = s.
Proof.
  revert n; induction s as [|c s IH]; intros [|n] H; cbn in *;
    try reflexivity; try lia.
  rewrite IH; [reflexivity | lia].
Qed.

Lemma header_line_length (id1 id2 : string) (ts : Z) :
  String.length id1 = String.length id2 ->
  String.length (header_line id1 ts) = String.length (header_line id2 ts).
Proof.
  intros H. unfold header_line. rewrite !length_append. lia.
Qed.

Lemma same_but_id_refl (c : string) : same_but_id c c.
Proof. now left. Qed.

Lemma same_but_id_header (g1 g2 : nat -> ascii) (ts : Z) (n : nat) :
  same_but_id (take n (header_line (reqID_of g1) ts))
              (take n (header_line (reqID_of g2) ts)).
Proof.
  right. exists (reqID_of g1), (reqID_of g2), ts, n.
  auto using reqID_of_length.
Qed.

Lemma same_but_id_header_full (g1 g2 : nat -> ascii) (ts : Z) :
  same_but_id (header_line (reqID_of g1) ts) (header_line (reqID_of g2) ts).
Proof.
  pose proof (same_but_id_header g1 g2 ts
                (String.length (header_line (reqID_of g1) ts))) as H.
  rewrite take_all in H by lia.
  rewrite take_all in H; [assumption|].
  rewrite (header_line_length (reqID_of g2) (reqID_of g1)); [lia|].
  now rewrite !reqID_of_length.
Qed.

Section TwoRuns.
Variable w : Writer.
Variable p : RegexParser.
Variables rnd1 rnd2 : RandSource.
Hypothesis same_failures : forall i, failed (rnd1 i) = failed (rnd2 i).

Lemma Forall2_snoc {T} (R : T -> T -> Prop) l1 l2 x1 x2 :
  Forall2 R l1 l2 -> R x1 x2 -> Forall2 R (l1 ++ [x1]) (l2 ++ [x2]).
Proof. intros H Hx. apply Forall2_app; auto. Qed.

Lemma body_agree st1 st2 line :
  agree st1 st2 ->
  agree_step (body w p rnd1 st1 line) (body w p rnd2 st2 line).
Proof.
  intros (Hc & Hr & Ho). pose proof (Forall2_length Ho) as Hlen.
  unfold body.
  destruct (is_empty line); [now repeat split|].
  destruct (rejected p line); [now repeat split|].
  destruct (requestLineOf line) as [rl|]; [|now repeat split].
  unfold generateRequestID. rewrite <- Hr.
  pose proof (same_failures (rand_calls st1)) as Hf.
  destruct (rnd1 (rand_calls st1)) as [e1|g1], (rnd2 (rand_calls st1)) as [e2|g2];
    try discriminate.
  { repeat split; cbn [processedCount rand_calls out]; auto. }
  unfold Fprintf. cbn [out processedCount rand_calls].
  rewrite !header_text. rewrite <- Hlen.
  destruct (w (List.length (out st1))) as [[n e]|].
  { repeat split; cbn [processedCount rand_calls out]; auto.
    apply Forall2_snoc; auto using same_but_id_header. }
  cbn [out processedCount rand_calls]. rewrite !length_app, <- Hlen.
  cbn [List.length].
  destruct (w (List.length (out st1) + 1)%nat) as [[n e]|].
  { repeat split; cbn [processedCount rand_calls out]; auto.
    repeat apply Forall2_snoc; auto using same_but_id_header_full, same_but_id_refl. }
  cbn [out processedCount rand_calls]. rewrite !length_app, <- Hlen.
  cbn [List.length].
  destruct (w (List.length (out st1) + 1 + 1)%nat) as [[n e]|].
  { repeat split; cbn [processedCount rand_calls out]; auto.
    repeat apply Forall2_snoc; auto using same_but_id_header_full, same_but_id_refl. }
  repeat split; cbn [processedCount rand_calls out]; auto.
  - now rewrite Hc.
  - repeat apply Forall2_snoc; auto using same_but_id_header_full, same_but_id_refl.
Qed.

Lemma loop_agree lines st1 st2 :
  agree st1 st2 ->
  agree_step (loop w p rnd1 st1 lines) (loop w p rnd2 st2 lines).
Proof.
  revert st1 st2; induction lines as [|line lines IH]; intros st1 st2 H;
    cbn [loop]; [exact H|].
  pose proof (body_agree st1 st2 line H) as Hb.
  destruct (body w p rnd1 st1 line), (body w p rnd2 st2 line);
    cbn [agree_step] in Hb; try contradiction; auto.
Qed.

(** C8 (amended): two runs over the same input, with the same writer and
    parser and with random sources that fail at the same reads (for
    instance never), return the same count and the same error, and their
    outputs agree chunk by chunk up to the identifier in the header. *)
Theorem C8_same_but_identifiers (r : Reader) :
  let o1 := processLogs w p rnd1 r in
  let o2 := processLogs w p rnd2 r in
  count o1 = count o2 /\ err o1 = err o2 /\
  Forall2 same_but_id (out (final o1)) (out (final o2)).
Proof.
  intros o1 o2. subst o1 o2. unfold processLogs, run.
  assert (H0 : agree init init) by (repeat split; constructor).
  pose proof (loop_agree (tokens (NewScanner r)) init init H0) as H.
  destruct (loop w p rnd1 init (tokens (NewScanner r))) as [st1|st1 e1],
           (loop w p rnd2 init (tokens (NewScanner r))) as [st2|st2 e2];
    cbn [agree_step] in H; try contradiction.
  - destruct H as (Hc & _ & Ho).
    destruct (Err (NewScanner r)); cbn [count err final]; auto.
  - destruct H as ((Hc & _ & Ho) & ->). cbn [count err final]; auto.
Qed.
End TwoRuns.

(** ** The error of the scanner *)

Lemma dropCR_plain (l : string) : last_byte l <> Some CR -> dropCR l = l.
Proof.
  induction l as [|c l IH]; [reflexivity|]. cbn [last_byte dropCR].
  destruct l as [|c' l'].
  - intros H. destruct (Ascii.eqb c CR) eqn:E; [|reflexivity].
    apply Ascii.eqb_eq in E. subst c. now elim H.
  - intros H. now rewrite (IH H).
Qed.

Lemma dropCR_app_CR (l : string) : dropCR (l ++ str1 CR) = l.
Proof.
  induction l as [|c l IH]; [reflexivity|].
  cbn [append dropCR]. rewrite IH. now destruct l.
Qed.

(** One buffered line: the scan of [l], a line feed and [s]. *)
Lemma scan_lines_line (l cur s : string) :
  no_byte LF l ->
  (String.length cur + String.length l < MaxScanTokenSize)%nat ->
  scan_lines cur (l ++ String LF s) =
  (dropCR (cur ++ l) :: fst (scan_lines EmptyString s),
   snd (scan_lines EmptyString s)).
Proof.
  revert cur; induction l as [|c l IH]; intros cur Hl Hlen; cbn [append scan_lines].
  - rewrite Ascii.eqb_refl, append_nil_r.
    now destruct (scan_lines EmptyString s).
  - unfold no_byte in Hl. cbn [forallb_str] in Hl.
    apply andb_true_iff in Hl as [Hc Hl]. apply negb_true_iff in Hc. rewrite Hc.
    cbn [String.length] in Hlen.
    replace (MaxScanTokenSize <=? String.length cur + 1)%nat with false
      by (symmetry; apply Nat.leb_gt; lia).
    rewrite (IH _ Hl).
    + unfold str1. now rewrite append_assoc.
    + rewrite length_append. unfold str1. cbn [String.length]. lia.
Qed.

Lemma unlines_cons_LF (l : string) (lines : list string) (s : string) :
  unlines (str1 LF) (l :: lines) ++ s = l ++ String LF (unlines (str1 LF) lines ++ s).
Proof. cbn [unlines]. unfold str1. now rewrite !append_assoc. Qed.

Lemma unlines_cons_CRLF (l : string) (lines : list string) (s : string) :
  unlines CRLF (l :: lines) ++ s = (l ++ str1 CR) ++ String LF (unlines CRLF lines ++ s).
Proof. cbn [unlines]. unfold CRLF, str1. now rewrite !append_assoc. Qed.

Lemma scan_lines_unlines_LF (lines : list string) (s : string) :
  Forall plain_line lines ->
  scan_lines EmptyString (unlines (str1 LF) lines ++ s) =
  ((lines ++ fst (scan_lines EmptyString s))%list, snd (scan_lines EmptyString s)).
Proof.
  induction 1 as [|l lines (Hl & Hcr & Hlen) _ IH].
  - cbn [unlines app append]. now destruct (scan_lines EmptyString s).
  - rewrite unlines_cons_LF, scan_lines_line by (cbn [String.length]; auto; lia).
    rewrite IH. cbn [fst snd append app]. now rewrite dropCR_plain.
Qed.

Lemma scan_lines_unlines_CRLF (lines : list string) (s : string) :
  Forall plain_line lines ->
  scan_lines EmptyString (unlines CRLF lines ++ s) =
  ((lines ++ fst (scan_lines EmptyString s))%list, snd (scan_lines EmptyString s)).
Proof.
  induction 1 as [|l lines (Hl & Hcr & Hlen) _ IH].
  - cbn [unlines app append]. now destruct (scan_lines EmptyString s).
  - rewrite unlines_cons_CRLF, scan_lines_line.
    + rewrite IH. cbn [fst snd append app]. now rewrite dropCR_app_CR.
    + apply no_byte_app. split; [assumption | reflexivity].
    + rewrite length_append. unfold str1. cbn [String.length]. lia.
Qed.

Lemma NewScanner_unlines (eol : string) (lines : list string) (e : option error) :
  eol = str1 LF \/ eol = CRLF ->
  Forall plain_line lines ->
  NewScanner (mkReader (unlines eol lines) e) = mkScanner lines e.
Proof.
  intros Heol H. unfold NewScanner. cbn [data read_err].
  rewrite <- (append_nil_r (unlines eol lines)).
  destruct Heol as [-> | ->];
    [rewrite scan_lines_unlines_LF by assumption
    |rewrite scan_lines_unlines_CRLF by assumption];
    cbn [scan_lines is_empty fst snd]; now rewrite app_nil_r.
Qed.

(** A buffer that fills up before a line feed arrives. *)
Lemma scan_lines_overlong (long cur rest : string) :
  no_byte LF long ->
  (MaxScanTokenSize <= String.length cur + String.length long)%nat ->
  (String.length cur < MaxScanTokenSize)%nat ->
  scan_lines cur (long ++ rest) = ([], Some ErrTooLong).
Proof.
  revert cur; induction long as [|c s IH]; intros cur Hs Hlen Hcur.
  - cbn [String.length] in Hlen. lia.
  - cbn [append scan_lines]. unfold no_byte in Hs. cbn [forallb_str] in Hs.
    apply andb_true_iff in Hs as [Hc Hs]. apply negb_true_iff in Hc. rewrite Hc.
    destruct (MaxScanTokenSize <=? String.length cur + 1)%nat eqn:E; [reflexivity|].
    apply Nat.leb_gt in E. apply IH; [exact Hs | |];
      rewrite length_append; unfold str1; cbn [String.length] in *; lia.
Qed.

Lemma NewScanner_overlong (lines : list string) (long rest : string) (e : option error) :
  Forall plain_line lines ->
  no_byte LF long ->
  (MaxScanTokenSize <= String.length long)%nat ->
  NewScanner (mkReader (unlines (str1 LF) lines ++ long ++ rest) e)
  = mkScanner lines (Some ErrTooLong).
Proof.
  intros Hl Hlong Hlen. unfold NewScanner. cbn [data read_err].
  rewrite scan_lines_unlines_LF by assumption.
  rewrite scan_lines_overlong; auto.
  - cbn [fst snd]. now rewrite app_nil_r.
  - unfold MaxScanTokenSize. cbn [String.length]. lia.
Qed.

Lemma replicate_length n c : String.length (replicate n c) = n.
Proof. induction n; cbn; congruence. Qed.

Lemma replicate_no_byte n c x : x <> c -> no_byte x (replicate n c).
Proof.
  intros H. unfold no_byte. induction n as [|n IH]; cbn [replicate forallb_str]; [reflexivity|].
  rewrite IH. replace (Ascii.eqb c x) with false; [reflexivity|].
  symmetry. apply Ascii.eqb_neq. congruence.
Qed.

Lemma sample_plain : plain_line sample_line.
Proof.
  split; [reflexivity|]. split; [discriminate|].
  apply Nat.ltb_lt. vm_compute. reflexivity.
Defined.

(** The scanner stops with an error for one reason only. *)
Lemma scan_lines_error (s cur : string) :
  snd (scan_lines cur s) = None \/ snd (scan_lines cur s) = Some ErrTooLong.
Proof.
  revert cur; induction s as [|c s IH]; intros cur; cbn [scan_lines].
  - now left.
  - destruct (Ascii.eqb c LF).
    + specialize (IH EmptyString).
      destruct (scan_lines EmptyString s) as [ls e]. exact IH.
    + destruct (MaxScanTokenSize <=? String.length cur + 1)%nat; [now right|].
      apply IH.
Qed.

Lemma last_byte_cons (c : ascii) (s : string) (x : ascii) :
  last_byte s = Some x -> last_byte (String c s) = Some x.
Proof. destruct s as [|d s]; [discriminate|]. intros H. exact H. Qed.

(** Where the scan stops with an error, a run of bytes without line feed
    has filled the buffer. *)
Lemma scan_lines_long_found (s cur : string) (e : error) :
  snd (scan_lines cur s) = Some e ->
  exists pre long rest,
    s = pre ++ long ++ rest /\ no_byte LF long /\
    ((pre = EmptyString /\
      (MaxScanTokenSize <= String.length cur + String.length long)%nat) \/
     (last_byte pre = Some LF /\ (MaxScanTokenSize <= String.length long)%nat)).
Proof.
  revert cur; induction s as [|c s IH]; intros cur; cbn [scan_lines].
  - discriminate.
  - destruct (Ascii.eqb c LF) eqn:Ec.
    + apply Ascii.eqb_eq in Ec. subst c.
      specialize (IH EmptyString).
      destruct (scan_lines EmptyString s) as [ls e']. cbn [snd] in *.
      intros H. destruct (IH H) as (pre & long & rest & Hs & Hl & Hc).
      exists (String LF pre), long, rest.
      split; [cbn [append]; now rewrite Hs|]. split; [exact Hl|]. right.
      destruct Hc as [[-> Hc] | [Hc Hc']].
      * split; [reflexivity | cbn [String.length] in Hc; lia].
      * split; [now apply last_byte_cons | exact Hc'].
    + destruct (MaxScanTokenSize <=? String.length cur + 1)%nat eqn:E.
      * intros _. apply Nat.leb_le in E.
        exists EmptyString, (str1 c), s.
        split; [reflexivity|]. split.
        -- unfold no_byte, str1. cbn [forallb_str]. now rewrite Ec.
        -- left. split; [reflexivity | exact E].
      * intros H. destruct (IH _ H) as (pre & long & rest & Hs & Hl & Hc).
        destruct Hc as [[-> Hc] | [Hc Hc']].
        -- exists EmptyString, (String c long), rest.
           split; [cbn [append] in *; now rewrite Hs|]. split.
           ++ unfold no_byte in *. cbn [forallb_str]. now rewrite Ec, Hl.
           ++ left. split; [reflexivity|].
              rewrite length_append in Hc. unfold str1 in Hc.
              cbn [String.length] in *. lia.
        -- exists (String c pre), long, rest.
           split; [cbn [append]; now rewrite Hs|]. split; [exact Hl|].
           right. split; [now apply last_byte_cons | exact Hc'].
Qed.

(** A run without line feed that fills the buffer after a line feed stops
    the scan, if nothing stopped it before. *)
Lemma scan_lines_long (pre long rest cur : string) :
  last_byte pre = Some LF -> no_byte LF long ->
  (MaxScanTokenSize <= String.length long)%nat ->
  snd (scan_lines cur (pre ++ long ++ rest)) = Some ErrTooLong.
Proof.
  intros Hpre Hl Hlen. revert cur Hpre.
  induction pre as [|c pre IH]; intros cur Hpre; [discriminate|].
  cbn [append scan_lines].
  destruct pre as [|d pre].
  - injection Hpre as ->. rewrite Ascii.eqb_refl. cbn [append].
    rewrite scan_lines_overlong; [reflexivity | exact Hl | exact Hlen |].
    unfold MaxScanTokenSize. cbn [String.length]. lia.
  - assert (Hpre' : last_byte (String d pre) = Some LF) by exact Hpre.
    destruct (Ascii.eqb c LF).
    + specialize (IH EmptyString Hpre').
      destruct (scan_lines EmptyString (String d pre ++ long ++ rest)) as [ls e].
      exact IH.
    + destruct (MaxScanTokenSize <=? String.length cur + 1)%nat; [reflexivity|].
      apply IH, Hpre'.
Qed.

Lemma has_long_line_scan (input : string) :
  has_long_line input <-> snd (scan_lines EmptyString input) = Some ErrTooLong.
Proof.
  split.
  - intros (pre & long & rest & -> & [-> | Hpre] & Hl & Hlen).
    + cbn [append]. rewrite scan_lines_overlong; [reflexivity | exact Hl | exact Hlen |].
      unfold MaxScanTokenSize. cbn [String.length]. lia.
    + now apply scan_lines_long.
  - intros H. destruct (scan_lines_long_found _ _ _ H)
      as (pre & long & rest & Hs & Hl & Hc).
    exists pre, long, rest. split; [exact Hs|].
    destruct Hc as [[-> Hc] | [Hc Hc']]; cbn [String.length] in *; auto.
Qed.

Lemma no_long_line (input : string) :
  snd (scan_lines EmptyString input) = None -> ~ has_long_line input.
Proof. intros H Hl. apply has_long_line_scan in Hl. congruence. Qed.

Lemma Err_long_line (r : Reader) :
  has_long_line (data r) -> Err (NewScanner r) = Some ErrTooLong.
Proof.
  intros H. apply has_long_line_scan in H. unfold NewScanner.
  destruct (scan_lines EmptyString (data r)) as [ls e]. cbn [snd] in H.
  now subst e.
Qed.

Lemma Err_no_long_line (r : Reader) :
  ~ has_long_line (data r) -> Err (NewScanner r) = read_err r.
Proof.
  intros H. unfold NewScanner.
  pose proof (has_long_line_scan (data r)) as Hi.
  destruct (scan_lines_error (data r) EmptyString) as [E | E].
  - destruct (scan_lines EmptyString (data r)) as [ls e]. cbn [snd] in E.
    now subst e.
  - apply Hi in E. contradiction.
Qed.

Section ReaderClaims.
Variable w : Writer.
Variable p : RegexParser.
Variable rnd : RandSource.

(** C6: when the loop has run to the end of the input, the result is the
    count together with the scanner's error, wrapped, or with nil when the
    scanner reached the end of the input without error.  The scanner's
    error is bufio's token-too-long error when a line does not fit its
    buffer of 64 KiB, and the reader's otherwise.  An error is returned in
    two cases only, the scanner's error and a failed write; when no write
    fails, the error is nil exactly when the reader reported none and no
    line is too long, whatever the lines hold. *)
Theorem C6_reader_error (r : Reader) :
  let sc := NewScanner r in
  let o := processLogs w p rnd r in
  (forall st, loop w p rnd init (tokens sc) = Continue st ->
     count o = processedCount st /\
     err o = option_map (ErrWrap "error reading input file") (Err sc)) /\
  (has_long_line (data r) -> Err sc = Some ErrTooLong) /\
  (~ has_long_line (data r) -> Err sc = read_err r) /\
  (forall e, err o = Some e ->
     (exists e0, Err sc = Some e0 /\ e = ErrWrap "error reading input file" e0) \/
     (exists j n e0, (j < 3)%nat /\ e = ErrWrap (segment_error j) e0 /\
                     w (List.length (out (final o)) - 1)%nat = Some (n, e0))) /\
  ((forall i, w i = None) ->
   (exists st, loop w p rnd init (tokens sc) = Continue st) /\
   (err o = None <-> read_err r = None /\ ~ has_long_line (data r))).
Proof.
  intros sc o. subst o. unfold processLogs, run. fold sc.
  split; [|split; [|split; [|split]]].
  - intros st ->. now destruct (Err sc).
  - apply Err_long_line.
  - apply Err_no_long_line.
  - intros e. destruct (loop w p rnd init (tokens sc)) as [st|st e1] eqn:E.
    + destruct (Err sc) as [e0|]; cbn [err]; [|discriminate].
      intros H; injection H as <-. left. now exists e0.
    + cbn [err final]. intros H; injection H as <-. right.
      exact (loop_Return w p rnd _ _ _ _ E).
  - intros Hw. destruct (loop_Continue w p rnd init (tokens sc) Hw) as [st E].
    split; [now exists st|]. rewrite E.
    pose proof (Err_long_line r) as Hl. pose proof (Err_no_long_line r) as Hn.
    fold sc in Hl, Hn. split.
    + intros H.
      assert (He : Err sc = None) by (destruct (Err sc); [discriminate | reflexivity]).
      assert (Hno : ~ has_long_line (data r)).
      { intros Hlong. rewrite (Hl Hlong) in He. discriminate. }
      split; [now rewrite <- (Hn Hno) | exact Hno].
    + intros [Hr Hno]. rewrite (Hn Hno), Hr. reflexivity.
Qed.
End ReaderClaims.

(** ** Instances *)

(** The scenario with the sample environments and a line feed after the line. *)
Lemma C1_witness :
  rejected okParser sample_line = false /\
  okRand 0%nat = inr g0 /\
  (let o := processLogs okWriter okParser okRand
              (mkReader (sample_line ++ str1 LF) None) in
   count o = 1 /\ err o = None /\ out (final o) = sample_record g0).
Proof.
  split; [reflexivity | split; [reflexivity|]].
  pose proof (C1_end_to_end okWriter okParser okRand g0 (str1 LF)
                eq_refl eq_refl (fun _ _ => eq_refl)
                (or_intror (or_introl eq_refl))) as H.
  cbv zeta in H |- *. tauto.
Defined.

(** The record written for the sample line. *)
Lemma C2_witness :
  let st' := mkState 1 (sample_record g0) 1 in
  body okWriter okParser okRand init sample_line = Continue st' /\
  processedCount st' <> processedCount init /\
  exists reqID pre m path proto rest,
    first_request sample_line pre m path proto rest /\
    String.length reqID = 24%nat /\
    out st' = (out init ++ record reqID (timestampOf sample_line)
                                  (request_text m path proto))%list.
Proof.
  intros st'.
  assert (Hb : body okWriter okParser okRand init sample_line = Continue st')
    by reflexivity.
  assert (Hc : processedCount st' <> processedCount init) by discriminate.
  split; [exact Hb | split; [exact Hc|]].
  destruct (C2_record_framing okWriter okParser okRand init sample_line st' Hb Hc)
    as (reqID & pre & m & path & proto & rest & H1 & H2 & _ & H4 & _).
  exists reqID, pre, m, path, proto, rest. auto.
Defined.

(** The quoted request lines of the two sample lines. *)
Lemma bad_day_line_request : has_quoted_request bad_day_line.
Proof.
  exists "127.0.0.1 - - [32/Oct/2025:12:30:11 +0000] ",
         (q ++ "GET /api/v1/users HTTP/1.1" ++ q ++ " 200 512"),
         "GET", "/api/v1/users", "HTTP/1.1", " 200 512".
  split; [reflexivity|]. split; [|reflexivity].
  constructor; try discriminate; try reflexivity. simpl. tauto.
Defined.

Lemma no_time_line_request : has_quoted_request no_time_line.
Proof.
  exists "127.0.0.1 - - ",
         (q ++ "GET /api/v1/users HTTP/1.1" ++ q ++ " 200 512"),
         "GET", "/api/v1/users", "HTTP/1.1", " 200 512".
  split; [reflexivity|]. split; [|reflexivity].
  constructor; try discriminate; try reflexivity. simpl. tauto.
Defined.

(** A line with the 32nd of October: the record has timestamp zero. *)
Lemma C3_witness :
  bad_day_line <> EmptyString /\
  rejected okParser bad_day_line = false /\
  has_quoted_request bad_day_line /\
  parseUnixNano (nth 1 (FindStringSubmatch timeRe bad_day_line) EmptyString) = None /\
  exists pre m path proto rest,
    first_request bad_day_line pre m path proto rest /\
    body okWriter okParser okRand init bad_day_line =
    Continue (mkState (wrap64 (processedCount init + 1))
                      (out init ++ record (reqID_of g0) 0 (request_text m path proto))
                      (S (rand_calls init))).
Proof.
  assert (Hne : bad_day_line <> EmptyString) by discriminate.
  assert (Ht : parseUnixNano (nth 1 (FindStringSubmatch timeRe bad_day_line) EmptyString)
               = None) by reflexivity.
  repeat (split; [assumption || reflexivity || exact bad_day_line_request |]).
  exact (C3_zero_timestamp okWriter okParser okRand init bad_day_line g0
           Hne eq_refl bad_day_line_request (or_intror Ht) eq_refl
           (fun _ _ => eq_refl)).
Defined.

(** C3 as stated fails: the line below is not empty, has a valid quoted
    request line and no timestamp, the identifier and the writes are
    available, and yet the iteration skips it, because the parser reports
    the line as unmatched: nothing is written and nothing is counted. *)
Lemma C3_counterexample :
  no_time_line <> EmptyString /\
  has_quoted_request no_time_line /\
  FindStringSubmatch timeRe no_time_line = [] /\
  okRand 0%nat = inr g0 /\
  (forall i, okWriter i = None) /\
  rejected bracketParser no_time_line = true /\
  body okWriter bracketParser okRand init no_time_line = Continue init /\
  (let o := processLogs okWriter bracketParser okRand
              (mkReader (no_time_line ++ str1 LF) None) in
   count o = 0 /\ err o = None /\ out (final o) = []).
Proof.
  split; [discriminate|]. split; [exact no_time_line_request|].
  split; [vm_compute; reflexivity|]. split; [reflexivity|].
  split; [reflexivity|]. split; [vm_compute; reflexivity|].
  split; [vm_compute; reflexivity|].
  cbv zeta. repeat split; vm_compute; reflexivity.
Qed.


(** The second record of three: the write of its request line fails after five bytes. *)
Lemma C5_witness :
  let w := failAt 4 5 in
  let sc := mkScanner [sample_line; sample_line; sample_line] None in
  let st := mkState 1 (sample_record g0) 1 in
  loop w okParser okRand init [sample_line] = Continue st /\
  w 3%nat = None /\ w 4%nat = Some (5%nat, ErrNew "no space left on device") /\
  (let o := run w okParser okRand sc in
   count o = 1 /\
   err o = Some (ErrWrap "failed to write request line"
                         (ErrNew "no space left on device")) /\
   option_map Error (err o)
     = Some "failed to write request line: no space left on device" /\
   out (final o)
     = (sample_record g0
          ++ [header_line (reqID_of g1) 1759321811000000000; "GET /"])%list /\
   rand_calls (final o) = 2%nat).
Proof.
  intros w sc st.
  assert (Hl : loop w okParser okRand init [sample_line] = Continue st)
    by (vm_compute; reflexivity).
  split; [exact Hl|]. split; [reflexivity | split; [reflexivity|]].
  assert (Hok : forall i, (i < 1)%nat -> w (i + List.length (out st))%nat = None).
  { intros i Hi. assert (i = 0)%nat as -> by lia. reflexivity. }
  destruct (C5_write_failure w okParser okRand sc [sample_line] sample_line
              [sample_line] st "GET /api/v1/users HTTP/1.1" g1 1 5
              (ErrNew "no space left on device")
              eq_refl Hl ltac:(discriminate) eq_refl eq_refl eq_refl
              ltac:(lia) Hok eq_refl) as (Hc & He & Ho & Hr).
  split; [exact Hc|]. split; [exact He|].
  split; [rewrite He; reflexivity|]. split; [exact Ho | exact Hr].
Defined.

(** A reader that fails after one line and the beginning of another. *)
Lemma C6_witness :
  let r := mkReader (sample_line ++ str1 LF ++ "GET")
                    (Some (ErrNew "read: input/output error")) in
  let st := mkState 1 (sample_record g0) 1 in
  loop okWriter okParser okRand init (tokens (NewScanner r)) = Continue st /\
  ~ has_long_line (data r) /\
  (let o := processLogs okWriter okParser okRand r in
   count o = 1 /\
   err o = Some (ErrWrap "error reading input file"
                         (ErrNew "read: input/output error"))).
Proof.
  intros r st.
  assert (Hl : loop okWriter okParser okRand init (tokens (NewScanner r)) = Continue st)
    by (vm_compute; reflexivity).
  assert (Hs : ~ has_long_line (data r))
    by (apply no_long_line; vm_compute; reflexivity).
  split; [exact Hl | split; [exact Hs|]].
  destruct (C6_reader_error okWriter okParser okRand r) as (H1 & _ & H3 & _).
  destruct (H1 st Hl) as [Hc He]. cbv zeta.
  split; [exact Hc|]. rewrite He, (H3 Hs). reflexivity.
Defined.

(** A line of 64 KiB of the letter a, which holds no request line, makes
    processLogs return an error although the reader reports none. *)
Lemma C6_counterexample :
  let long := replicate MaxScanTokenSize "a" in
  let r := mkReader (unlines (str1 LF) [sample_line] ++ long ++ str1 LF) None in
  let o := processLogs okWriter okParser okRand r in
  read_err r = None /\
  no_byte dquote long /\
  count o = 1 /\
  err o = Some (ErrWrap "error reading input file" ErrTooLong).
Proof.
  intros long r o.
  split; [reflexivity|].
  split; [apply replicate_no_byte; discriminate|].
  assert (Hsc : NewScanner r = mkScanner [sample_line] (Some ErrTooLong)).
  { apply NewScanner_overlong.
    - exact (Forall_cons _ sample_plain (Forall_nil _)).
    - apply replicate_no_byte. discriminate.
    - unfold long. rewrite replicate_length. apply Nat.le_refl. }
  unfold o, processLogs. rewrite Hsc. split; vm_compute; reflexivity.
Qed.

Lemma C7_witness :
  okRand 0%nat = inr g0 /\
  EncodeToString (map g0 (seq 0 12)) = "000102030405060708090a0b" /\
  hex_bytes "000102030405060708090a0b" = Some (map g0 (seq 0 12)) /\
  badRand 0%nat = inl (ErrNew "entropy source unavailable") /\
  exists st', body okWriter okParser badRand init sample_line = Continue st' /\
              processedCount st' = processedCount init /\ out st' = out init.
Proof.
  destruct (C7_request_id okWriter okParser okRand init sample_line) as (Ha & _ & _).
  destruct (C7_request_id okWriter okParser badRand init sample_line) as (_ & _ & Hc).
  destruct (Ha g0 eq_refl) as (_ & _ & _ & _ & Hd).
  assert (He : EncodeToString (map g0 (seq 0 12)) = "000102030405060708090a0b")
    by (vm_compute; reflexivity).
  split; [reflexivity|]. split; [exact He|].
  split; [rewrite <- He; exact Hd|].
  split; [reflexivity|]. exact (Hc _ eq_refl).
Defined.

Lemma C8_witness :
  (forall i, failed (okRand i) = failed (okRand' i)) /\
  (let r := mkReader (sample_line ++ str1 LF ++ bad_day_line) None in
   let o1 := processLogs okWriter okParser okRand r in
   let o2 := processLogs okWriter okParser okRand' r in
   count o1 = count o2 /\ err o1 = err o2 /\
   Forall2 same_but_id (out (final o1)) (out (final o2))).
Proof.
  assert (H : forall i, failed (okRand i) = failed (okRand' i))
    by (intros i; reflexivity).
  split; [exact H|]. intros r.
  exact (C8_same_but_identifiers okWriter okParser okRand okRand' H r).
Defined.

(** C8 as stated fails: two runs over the same line that differ in the
    random source only; the first converts the line, the second, whose
    random source fails at the first read, skips it. *)
Lemma C8_counterexample :
  let r := mkReader (sample_line ++ str1 LF) None in
  let o1 := processLogs okWriter okParser okRand r in
  let o2 := processLogs okWriter okParser badRand r in
  count o1 = 1 /\ count o2 = 0 /\ count o1 <> count o2 /\
  List.length (out (final o1)) = 3%nat /\ out (final o2) = [].
Proof.
  cbv zeta. split; [vm_compute; reflexivity|]. split; [vm_compute; reflexivity|].
  split; [intros H; vm_compute in H; discriminate|].
  split; vm_compute; reflexivity.
Qed.

(** Three lines, two of them converted. *)
Lemma C9_witness :
  let r := mkReader (sample_line ++ str1 LF ++ "-- log rotated --" ++ str1 LF
                     ++ bad_day_line) None in
  Z.of_nat (List.length (tokens (NewScanner r))) < 2 ^ 63 /\
  (let o := processLogs okWriter okParser okRand r in
   count o = 2 /\ err o = None /\
   delimiter_lines (stream (out (final o))) = 2%nat).
Proof.
  intros r.
  assert (Hlt : Z.of_nat (List.length (tokens (NewScanner r))) < 2 ^ 63)
    by reflexivity.
  split; [exact Hlt|].
  destruct (C9_count_is_records okWriter okParser okRand r Hlt)
    as ((recs & partial & Hout & Hcnt & _ & Hnil) & _).
  assert (He : err (processLogs okWriter okParser okRand r) = None) by reflexivity.
  destruct (Hnil He) as [_ Hd].
  split; [reflexivity | split; [exact He|]].
  rewrite Hd. apply Nat2Z.inj. rewrite <- Hcnt. reflexivity.
Defined.

(** The submatches of the sample line. *)
Lemma C10_witness :
  FindStringSubmatch re sample_line =
    [q ++ "GET /api/v1/users HTTP/1.1" ++ q; "GET"; "/api/v1/users"; "HTTP/1.1"] /\
  exists pre rest,
    first_request sample_line pre "GET" "/api/v1/users" "HTTP/1.1" rest /\
    requestLineOf sample_line = Some (request_text "GET" "/api/v1/users" "HTTP/1.1").
Proof.
  assert (H : FindStringSubmatch re sample_line =
              [q ++ "GET /api/v1/users HTTP/1.1" ++ q; "GET"; "/api/v1/users"; "HTTP/1.1"])
    by reflexivity.
  split; [exact H|].
  destruct (proj1 C10_first_match sample_line _ "GET" "/api/v1/users" "HTTP/1.1" H)
    as (pre & rest & Hf & _ & _ & Hr).
  exists pre, rest. split; [exact Hf | exact Hr].
Defined.

(** * Further properties

    Whole runs, line endings, the format of the records, the timestamp
    pattern and [main]. *)

Lemma wrap64_range (z : Z) : int64_range (wrap64 z).
Proof.
  unfold int64_range, wrap64.
  pose proof (Z.mod_pos_bound (z + 2 ^ 63) (2 ^ 64) ltac:(lia)). lia.
Qed.

Lemma wrap64_add_l (a b : Z) : wrap64 (wrap64 a + b) = wrap64 (a + b).
Proof.
  unfold wrap64. f_equal.
  replace ((a + 2 ^ 63) mod 2 ^ 64 - 2 ^ 63 + b + 2 ^ 63)
    with ((a + 2 ^ 63) mod 2 ^ 64 + b) by lia.
  rewrite Zplus_mod_idemp_l. f_equal. lia.
Qed.

Lemma wrap64_add_r (a b : Z) : wrap64 (a + wrap64 b) = wrap64 (a + b).
Proof. rewrite Z.add_comm, wrap64_add_l. f_equal. lia. Qed.

Lemma after_init (st0 : State) :
  int64_range (processedCount st0) -> after st0 init = st0.
Proof.
  intros H. destruct st0 as [c o r]. unfold after, init.
  cbn [processedCount out rand_calls] in *.
  rewrite Z.add_0_r, wrap64_small, app_nil_r, Nat.add_0_r by assumption.
  reflexivity.
Qed.

Section Shifted.
Variable w : Writer.
Variable p : RegexParser.
Variable rnd : RandSource.

Lemma body_after st0 st line :
  body w p rnd (after st0 st) line =
  after_step st0
    (body (shift w (List.length (out st0))) p (shift rnd (rand_calls st0)) st line).
Proof.
  unfold body.
  destruct (is_empty line); [reflexivity|].
  destruct (rejected p line); [reflexivity|].
  destruct (requestLineOf line) as [rl|]; [|reflexivity].
  unfold generateRequestID, shift. cbn [rand_calls after processedCount out].
  destruct (rnd (rand_calls st0 + rand_calls st)%nat) as [e|g].
  { cbn [after_step]. unfold after. cbn [processedCount out rand_calls].
    now rewrite Nat.add_succ_r. }
  unfold Fprintf. cbn [out processedCount rand_calls].
  rewrite !length_app.
  destruct (w (List.length (out st0) + List.length (out st))%nat) as [[n e]|].
  { cbn [after_step]. unfold after. cbn [processedCount out rand_calls].
    now rewrite Nat.add_succ_r, app_assoc. }
  cbn [out processedCount rand_calls]. rewrite !length_app.
  rewrite !Nat.add_assoc.
  destruct (w (List.length (out st0) + List.length (out st) + List.length [_])%nat)
    as [[n e]|].
  { cbn [after_step]. unfold after. cbn [processedCount out rand_calls].
    now rewrite Nat.add_succ_r, !app_assoc. }
  cbn [out processedCount rand_calls]. rewrite !length_app.
  rewrite !Nat.add_assoc.
  destruct (w (List.length (out st0) + List.length (out st) + List.length [_]
               + List.length [_])%nat) as [[n e]|].
  { cbn [after_step]. unfold after. cbn [processedCount out rand_calls].
    now rewrite Nat.add_succ_r, !app_assoc. }
  cbn [after_step]. unfold after. cbn [processedCount out rand_calls].
  rewrite Nat.add_succ_r, !app_assoc, wrap64_add_l, wrap64_add_r.
  do 2 f_equal. f_equal. lia.
Qed.

Lemma loop_after st0 st lines :
  loop w p rnd (after st0 st) lines =
  after_step st0
    (loop (shift w (List.length (out st0))) p (shift rnd (rand_calls st0)) st lines).
Proof.
  revert st; induction lines as [|line lines IH]; intros st; cbn [loop];
    [reflexivity|].
  rewrite body_after.
  destruct (body (shift w _) p (shift rnd _) st line); cbn [after_step];
    [apply IH | reflexivity].
Qed.

Lemma loop_count_range st lines :
  int64_range (processedCount st) ->
  match loop w p rnd st lines with
  | Continue st' | Return st' _ => int64_range (processedCount st')
  end.
Proof.
  revert st; induction lines as [|line lines IH]; intros st Hst; cbn [loop];
    [assumption|].
  pose proof (body_iteration w p rnd st line) as Hi.
  destruct (body w p rnd st line) as [st1|st1 e1].
  - apply IH. inversion Hi; subst; cbn [processedCount]; auto using wrap64_range.
  - inversion Hi; subst; cbn [processedCount]; assumption.
Qed.
End Shifted.

Section Composition.
Variable w : Writer.
Variable p : RegexParser.
Variable rnd : RandSource.

Lemma run_app (l1 l2 : list string) (e : option error) (st1 : State) :
  loop w p rnd init l1 = Continue st1 ->
  let o2 := run (shift w (List.length (out st1))) p (shift rnd (rand_calls st1))
                (mkScanner l2 e) in
  run w p rnd (mkScanner (l1 ++ l2) e) =
  mkOutcome (wrap64 (processedCount st1 + count o2)) (err o2) (after st1 (final o2)).
Proof.
  intros H1 o2. subst o2. unfold run. cbn [tokens Err].
  rewrite loop_app, H1.
  pose proof (loop_count_range w p rnd init l1 ltac:(unfold int64_range, init; cbn; lia)) as Hr.
  rewrite H1 in Hr.
  rewrite <- (after_init st1 Hr) at 1. rewrite loop_after.
  destruct (loop (shift w _) p (shift rnd _) init l2) as [st2|st2 e2];
    cbn [after_step].
  - destruct e; reflexivity.
  - reflexivity.
Qed.

(** X3: converting an input made of complete lines followed by more data
    is converting the lines and then the data: when the lines alone
    convert without error, the output is the two outputs one after the
    other, the count the sum of the counts, the error that of the second
    part, with the writer and the random source of the second part taken
    where the first part left them. *)
Theorem X3_concatenation (eol : string) (l1 : list string) (d2 : string)
        (e : option error) :
  eol = str1 LF \/ eol = CRLF ->
  Forall plain_line l1 ->
  let o1 := processLogs w p rnd (mkReader (unlines eol l1) None) in
  err o1 = None ->
  let o := processLogs w p rnd (mkReader (unlines eol l1 ++ d2) e) in
  let o2 := processLogs (shift w (List.length (out (final o1)))) p
                        (shift rnd (rand_calls (final o1))) (mkReader d2 e) in
  out (final o) = (out (final o1) ++ out (final o2))%list /\
  count o = wrap64 (count o1 + count o2) /\
  err o = err o2 /\
  rand_calls (final o) = (rand_calls (final o1) + rand_calls (final o2))%nat.
Proof.
  intros Heol Hl1 o1 Herr o o2.
  assert (Hs1 : NewScanner (mkReader (unlines eol l1) None) = mkScanner l1 None)
    by now apply NewScanner_unlines.
  assert (Hs : NewScanner (mkReader (unlines eol l1 ++ d2) e)
               = mkScanner (l1 ++ tokens (NewScanner (mkReader d2 e)))
                           (Err (NewScanner (mkReader d2 e)))).
  { unfold NewScanner. cbn [data read_err].
    destruct Heol as [-> | ->];
      [rewrite scan_lines_unlines_LF by assumption
      |rewrite scan_lines_unlines_CRLF by assumption];
      now destruct (scan_lines EmptyString d2). }
  subst o1 o o2. unfold processLogs in *. rewrite Hs1 in *. rewrite Hs.
  unfold run at 1 in Herr. cbn [tokens Err] in Herr.
  destruct (loop w p rnd init l1) as [st1|st1 e1] eqn:E1; [|discriminate].
  assert (Ho1 : run w p rnd (mkScanner l1 None) = mkOutcome (processedCount st1) None st1).
  { unfold run. cbn [tokens Err]. now rewrite E1. }
  rewrite Ho1. cbn [final count].
  rewrite (run_app l1 _ _ st1 E1). cbn [final count err out rand_calls after].
  destruct (NewScanner (mkReader d2 e)) as [ts es]. cbn [tokens Err].
  repeat split.
Qed.

(** Lines that are not eligible leave the state as it is. *)
Lemma body_not_eligible st line :
  eligible p line = false -> body w p rnd st line = Continue st.
Proof.
  unfold eligible, body. destruct (is_empty line); [reflexivity|].
  destruct (rejected p line); [reflexivity|].
  destruct (requestLineOf line); [discriminate | reflexivity].
Qed.

Lemma eligible_inv line :
  eligible p line = true ->
  line <> EmptyString /\ rejected p line = false /\
  exists rl, requestLineOf line = Some rl.
Proof.
  unfold eligible. destruct line as [|c l]; [discriminate|]. cbn [is_empty negb andb].
  destruct (rejected p (String c l)); [discriminate|].
  destruct (requestLineOf (String c l)) as [rl|]; [|discriminate].
  intros _. repeat split; [discriminate | now exists rl].
Qed.

Lemma body_no_id st line rl e :
  line <> EmptyString -> rejected p line = false ->
  requestLineOf line = Some rl ->
  rnd (rand_calls st) = inl e ->
  body w p rnd st line =
  Continue (mkState (processedCount st) (out st) (S (rand_calls st))).
Proof.
  intros Hne Hrej Hrl Hg. unfold body.
  apply is_empty_false in Hne. rewrite Hne, Hrej, Hrl.
  unfold generateRequestID. now rewrite Hg.
Qed.

Lemma loop_written lines st :
  (forall i, w i = None) ->
  let ls := filter (eligible p) lines in
  let recs := records_of rnd (rand_calls st) ls in
  loop w p rnd st lines =
  Continue (mkState (List.fold_left (fun c _ => wrap64 (c + 1)) recs (processedCount st))
                    (out st ++ flat_map render recs)
                    (rand_calls st + List.length ls)).
Proof.
  intros Hw. revert st; induction lines as [|line lines IH]; intros st; cbn zeta.
  - cbn [loop filter fold_left flat_map records_of List.length].
    rewrite app_nil_r, Nat.add_0_r. now destruct st.
  - cbn [loop filter]. destruct (eligible p line) eqn:E.
    + destruct (eligible_inv line E) as (Hne & Hrej & rl & Hrl).
      cbn [records_of List.length]. rewrite Hrl.
      destruct (rnd (rand_calls st)) as [e|g] eqn:Hg.
      * rewrite (body_no_id st line rl e Hne Hrej Hrl Hg).
        rewrite IH. cbn [processedCount out rand_calls].
        now rewrite Nat.add_succ_r.
      * rewrite (body_emit w p rnd st line rl g Hne Hrej Hrl Hg (Hw _) (Hw _) (Hw _)).
        rewrite IH. cbn [processedCount out rand_calls fold_left flat_map render].
        rewrite <- app_assoc, Nat.add_succ_r. reflexivity.
    + rewrite (body_not_eligible st line E). apply IH.
Qed.

Lemma records_of_length (ls : list string) (k : nat) :
  Forall (fun l => eligible p l = true) ls ->
  (forall i, failed (rnd i) = false) ->
  List.length (records_of rnd k ls) = List.length ls.
Proof.
  intros Hl Hr. revert k; induction Hl as [|l ls Hel _ IH]; intros k;
    cbn [records_of List.length]; [reflexivity|].
  destruct (eligible_inv l Hel) as (_ & _ & rl & ->).
  pose proof (Hr k) as Hk. destruct (rnd k); [discriminate|].
  cbn [List.length]. now rewrite IH.
Qed.

Lemma fold_wrap (T : Type) (ls : list T) (c : Z) :
  int64_range c ->
  List.fold_left (fun c _ => wrap64 (c + 1)) ls c = wrap64 (c + Z.of_nat (List.length ls)).
Proof.
  revert c; induction ls as [|x ls IH]; intros c Hc; cbn [fold_left List.length].
  - now rewrite Z.add_0_r, wrap64_small.
  - rewrite IH by apply wrap64_range. rewrite wrap64_add_l. f_equal. lia.
Qed.
End Composition.

Section Runs.
Variable w : Writer.
Variable p : RegexParser.
Variable rnd : RandSource.

(** X1: when no write on the output fails, processLogs runs through the
    whole input.  The lines that reach generateRequestID are the non-empty
    lines the parser accepts and that hold a request line; the k-th of
    them uses the k-th read of the random source and gives one record, in
    input order, unless that read fails, in which case it gives nothing.
    The output is these records and nothing else, the count is their
    number, and the error is the wrapped scanner error or nil.  When no
    read fails every such line gives a record. *)
Theorem X1_no_write_failure (r : Reader) :
  (forall i, w i = None) ->
  let sc := NewScanner r in
  let ls := filter (eligible p) (tokens sc) in
  let recs := records_of rnd 0 ls in
  let o := processLogs w p rnd r in
  out (final o) = flat_map render recs /\
  count o = wrap64 (Z.of_nat (List.length recs)) /\
  rand_calls (final o) = List.length ls /\
  err o = option_map (ErrWrap "error reading input file") (Err sc) /\
  ((forall i, failed (rnd i) = false) -> List.length recs = List.length ls).
Proof.
  intros Hw sc ls recs o. subst o. unfold processLogs, run. fold sc.
  rewrite (loop_written w p rnd (tokens sc) init Hw). fold ls.
  cbn [processedCount out rand_calls init]. fold recs.
  rewrite fold_wrap by (unfold int64_range; lia).
  assert (Hlen : (forall i, failed (rnd i) = false) ->
                 List.length recs = List.length ls).
  { intros Hr. apply (records_of_length p rnd); [|assumption].
    apply Forall_forall. intros l Hin. now apply filter_In in Hin. }
  destruct (Err sc); cbn [count err final out rand_calls option_map]; auto.
Qed.

Lemma loop_bounds lines st n :
  processedCount st = wrap64 (Z.of_nat n) ->
  (n <= rand_calls st)%nat ->
  List.length (out st) = (3 * n)%nat ->
  exists n',
    match loop w p rnd st lines with
    | Continue st' =>
        processedCount st' = wrap64 (Z.of_nat n') /\
        (n' <= rand_calls st')%nat /\
        List.length (out st') = (3 * n')%nat /\
        rand_calls st' = (rand_calls st + List.length (filter (eligible p) lines))%nat
    | Return st' _ =>
        processedCount st' = wrap64 (Z.of_nat n') /\
        (n' < rand_calls st')%nat /\
        (3 * n' < List.length (out st') <= 3 * n' + 3)%nat /\
        (rand_calls st' <= rand_calls st + List.length (filter (eligible p) lines))%nat
    end.
Proof.
  revert st n; induction lines as [|line lines IH]; intros st n Hc Hr Ho.
  - exists n. cbn [loop filter List.length]. repeat split; auto; lia.
  - cbn [loop filter].
    pose proof (body_iteration w p rnd st line) as Hi.
    destruct (eligible p line) eqn:E.
    + destruct (eligible_inv p line E) as (Hne & Hrej & rl0 & Hrl0).
      destruct (body w p rnd st line) as [st1|st1 e1].
      * inversion Hi; subst; try congruence.
        -- destruct (IH (mkState (processedCount st) (out st) (S (rand_calls st)))
                       n Hc ltac:(cbn [rand_calls]; lia) Ho) as [n' H]. exists n'.
           destruct (loop w p rnd _ lines); cbn [rand_calls List.length] in *;
             repeat split; try tauto; lia.
        -- destruct (IH (mkState (wrap64 (processedCount st + 1))
                                 (out st ++ record (reqID_of g) (timestampOf line) rl)
                                 (S (rand_calls st))) (S n)) as [n' H].
           ++ cbn [processedCount]. rewrite Hc, wrap64_add_l. f_equal. lia.
           ++ cbn [rand_calls]. lia.
           ++ cbn [out]. rewrite length_app, Ho. cbn [record List.length]. lia.
           ++ exists n'.
              destruct (loop w p rnd _ lines); cbn [rand_calls List.length] in *;
                repeat split; try tauto; lia.
      * inversion Hi as [ | | | | rl g j k e0 _ _ _ _ Hj _ _ | ]; subst.
        exists n. cbn [processedCount rand_calls out].
        rewrite !length_app, (length_firstn j rec), Ho.
        change (List.length rec) with 3%nat. cbn [List.length].
        repeat split; auto; lia.
    + rewrite (body_not_eligible w p rnd st line E). apply (IH st n); assumption.
Qed.

(** X2: whatever the writer, the parser and the random source do, the
    returned count is the number n of complete records; the output holds
    3n writes when the error is nil and at most three more otherwise; the
    random source is read at least n times, at most once per line that
    the parser accepts and that holds a request line, and exactly once
    per such line when the error is nil. *)
Theorem X2_bounds (r : Reader) :
  let sc := NewScanner r in
  let o := processLogs w p rnd r in
  exists n : nat,
    count o = wrap64 (Z.of_nat n) /\
    (n <= rand_calls (final o) <= List.length (filter (eligible p) (tokens sc)))%nat /\
    (3 * n <= List.length (out (final o)) <= 3 * n + 3)%nat /\
    (err o = None ->
     List.length (out (final o)) = (3 * n)%nat /\
     rand_calls (final o) = List.length (filter (eligible p) (tokens sc))).
Proof.
  intros sc o. subst o. unfold processLogs, run. fold sc.
  destruct (loop_bounds (tokens sc) init 0 eq_refl (Nat.le_refl _) eq_refl) as [n H].
  exists n.
  destruct (loop w p rnd init (tokens sc)) as [st|st e].
  - destruct H as (Hc & Hr & Ho & Hn). cbn [rand_calls init Nat.add] in Hn.
    destruct (Err sc); cbn [count err final]; repeat split; auto; lia.
  - destruct H as (Hc & Hr & Ho & Hn). cbn [rand_calls init Nat.add] in Hn.
    cbn [count err final]. repeat split; auto; try lia; discriminate.
Qed.

(** X4: lines that hold no line feed, do not end in a carriage return and
    fit the buffer of the scanner are read back one by one whether each is
    terminated by LF or by CR LF, and processLogs returns the same count
    and error and writes the same output for the two inputs. *)
Theorem X4_line_endings (lines : list string) (e : option error) :
  Forall plain_line lines ->
  let unix := mkReader (unlines (str1 LF) lines) e in
  let dos := mkReader (unlines CRLF lines) e in
  NewScanner unix = mkScanner lines e /\
  NewScanner dos = mkScanner lines e /\
  processLogs w p rnd dos = processLogs w p rnd unix.
Proof.
  intros H unix dos. subst unix dos. unfold processLogs.
  rewrite !NewScanner_unlines; auto.
Qed.

(** X5: a line of 64 KiB or more stops the conversion: the lines before
    it are converted as if the input ended there, nothing after them is
    written, and the returned error reads \x22error reading input file:
    bufio.Scanner: token too long\x22 (the writes are assumed to succeed). *)
Theorem X5_overlong_line (lines : list string) (long rest : string)
        (e : option error) :
  Forall plain_line lines ->
  no_byte LF long ->
  (MaxScanTokenSize <= String.length long)%nat ->
  (forall i, w i = None) ->
  let o := processLogs w p rnd
             (mkReader (unlines (str1 LF) lines ++ long ++ rest) e) in
  let o' := processLogs w p rnd (mkReader (unlines (str1 LF) lines) None) in
  option_map Error (err o)
    = Some "error reading input file: bufio.Scanner: token too long" /\
  err o' = None /\ count o = count o' /\ final o = final o'.
Proof.
  intros Hl Hlong Hlen Hw o o'. subst o o'. unfold processLogs.
  rewrite NewScanner_overlong, NewScanner_unlines by auto.
  unfold run. cbn [tokens Err].
  destruct (loop_Continue w p rnd init lines Hw) as [st ->].
  cbn [count err final option_map]. repeat split.
Qed.
End Runs.

(** ** Identifiers and bytes *)

Lemma hex_digit_inj (a b : nat) :
  (a < 16)%nat -> (b < 16)%nat -> hex_digit a = hex_digit b -> a = b.
Proof.
  intros Ha Hb.
  do 16 (destruct a as [|a];
         [do 16 (destruct b as [|b];
                 [intros H; try reflexivity; vm_compute in H; discriminate H|]);
          lia|]).
  lia.
Qed.

Lemma nat_of_ascii_inj (a b : ascii) : nat_of_ascii a = nat_of_ascii b -> a = b.
Proof.
  intros H. rewrite <- (ascii_nat_embedding a), <- (ascii_nat_embedding b).
  now rewrite H.
Qed.

Lemma EncodeToString_inj (l1 l2 : list ascii) :
  EncodeToString l1 = EncodeToString l2 -> l1 = l2.
Proof.
  revert l2; induction l1 as [|v l1 IH]; intros [|v' l2]; cbn [EncodeToString];
    try discriminate; [reflexivity|].
  pose proof (nat_ascii_bounded v) as Hv. pose proof (nat_ascii_bounded v') as Hv'.
  pose proof (Nat.div_mod_eq (nat_of_ascii v) 16) as E.
  pose proof (Nat.div_mod_eq (nat_of_ascii v') 16) as E'.
  assert (Ha : (nat_of_ascii v / 16 < 16)%nat)
    by (apply Nat.Div0.div_lt_upper_bound; lia).
  assert (Ha' : (nat_of_ascii v' / 16 < 16)%nat)
    by (apply Nat.Div0.div_lt_upper_bound; lia).
  assert (Hb : (nat_of_ascii v mod 16 < 16)%nat) by (apply Nat.mod_upper_bound; lia).
  assert (Hb' : (nat_of_ascii v' mod 16 < 16)%nat) by (apply Nat.mod_upper_bound; lia).
  revert E E' Ha Ha' Hb Hb'.
  generalize (nat_of_ascii v / 16)%nat (nat_of_ascii v mod 16)%nat
             (nat_of_ascii v' / 16)%nat (nat_of_ascii v' mod 16)%nat.
  intros a b a' b' E E' Ha Ha' Hb Hb' H.
  injection H as Hhi Hlo Hrest.
  apply hex_digit_inj in Hhi; [|assumption|assumption].
  apply hex_digit_inj in Hlo; [|assumption|assumption].
  f_equal; [|now apply IH].
  apply nat_of_ascii_inj. lia.
Qed.

(** X6: two request identifiers are the same text exactly when the twelve
    bytes read from the random source are the same: the hexadecimal
    encoding loses nothing. *)
Theorem X6_identifier_injective (g1 g2 : nat -> ascii) :
  reqID_of g1 = reqID_of g2 <-> (forall j, (j < 12)%nat -> g1 j = g2 j).
Proof.
  unfold reqID_of. split.
  - intros H%EncodeToString_inj j Hj.
    assert (Hn : nth j (map g1 (seq 0 12)) (g1 0%nat) = nth j (map g2 (seq 0 12)) (g1 0%nat))
      by now rewrite H.
    do 12 (destruct j as [|j]; [exact Hn|]). lia.
  - intros H. f_equal. apply map_ext_in. intros j Hj. apply H.
    apply in_seq in Hj. lia.
Qed.

(** ** Fields of the header line *)

Lemma fields_field (l cur s : string) :
  no_byte space l ->
  fields cur (l ++ String space s) = (cur ++ l) :: fields EmptyString s.
Proof.
  revert cur; induction l as [|c l IH]; intros cur Hl; cbn [append fields].
  - rewrite Ascii.eqb_refl. now rewrite append_nil_r.
  - unfold no_byte in Hl. cbn [forallb_str] in Hl.
    apply andb_true_iff in Hl as [Hc Hl].
    apply negb_true_iff in Hc. rewrite Hc, (IH _ Hl).
    unfold str1. now rewrite append_assoc.
Qed.

Lemma fields_last (l cur : string) :
  no_byte space l -> fields cur l = [cur ++ l].
Proof.
  revert cur; induction l as [|c l IH]; intros cur Hl; cbn [append fields].
  - now rewrite append_nil_r.
  - unfold no_byte in Hl. cbn [forallb_str] in Hl.
    apply andb_true_iff in Hl as [Hc Hl].
    apply negb_true_iff in Hc. rewrite Hc, (IH _ Hl).
    unfold str1. now rewrite append_assoc.
Qed.

Lemma fmt_digits_cons (fuel : nat) (n : Z) (acc : string) :
  exists c s, fmt_digits fuel n acc = String c s.
Proof.
  revert n acc; induction fuel as [|fuel IH]; intros n acc; cbn [fmt_digits].
  - eauto.
  - destruct (n <? 10); [eauto | apply IH].
Qed.

Lemma digit_not_minus (c : ascii) : is_digit c = true -> Ascii.eqb c "-" = false.
Proof.
  intros H. destruct (Ascii.eqb c "-") eqn:E; [|reflexivity].
  apply Ascii.eqb_eq in E. subst c. discriminate.
Qed.

Lemma digit_not_space (c : ascii) : is_digit c = true -> Ascii.eqb c space = false.
Proof.
  intros H. destruct (Ascii.eqb c space) eqn:E; [|reflexivity].
  apply Ascii.eqb_eq in E. subst c. discriminate.
Qed.

Lemma read_decimal_fmt_d (z : Z) : read_decimal (fmt_d z) = Some z.
Proof.
  unfold fmt_d.
  set (ds := fmt_digits (Z.to_nat (Z.log2 (Z.abs z))) (Z.abs z) EmptyString).
  assert (Hv : atoi_digits 0 ds = Some (Z.abs z)).
  { unfold ds.
    destruct (fmt_digits_value (Z.to_nat (Z.log2 (Z.abs z))) (Z.abs z)
                EmptyString 0 (Z.abs_nonneg z)) as (k & _ & _ & ->).
    - right. rewrite Z2Nat.id; [lia | apply Z.log2_nonneg].
    - reflexivity. }
  assert (Hd : forallb_str is_digit ds = true)
    by (apply fmt_digits_digits; [lia | reflexivity]).
  destruct (fmt_digits_cons (Z.to_nat (Z.log2 (Z.abs z))) (Z.abs z) EmptyString)
    as (c & s & Hc).
  fold ds in Hc. rewrite Hc in *.
  destruct (z <? 0) eqn:Hz; cbn [read_decimal].
  - rewrite Ascii.eqb_refl, Hv. cbn [option_map]. f_equal.
    apply Z.ltb_lt in Hz. lia.
  - cbn [forallb_str] in Hd. apply andb_true_iff in Hd as [Hd _].
    rewrite (digit_not_minus _ Hd), Hv. f_equal.
    apply Z.ltb_ge in Hz. lia.
Qed.

Lemma fmt_d_inj (a b : Z) : fmt_d a = fmt_d b -> a = b.
Proof.
  intros H. apply (f_equal read_decimal) in H.
  rewrite !read_decimal_fmt_d in H. congruence.
Qed.

Lemma fmt_d_no_space (z : Z) : no_byte space (fmt_d z).
Proof.
  unfold fmt_d.
  assert (H : no_byte space
                (fmt_digits (Z.to_nat (Z.log2 (Z.abs z))) (Z.abs z) EmptyString)).
  { apply (forallb_str_impl is_digit).
    - intros c Hc. now rewrite (digit_not_space _ Hc).
    - apply fmt_digits_digits; [lia | reflexivity]. }
  destruct (z <? 0); [|assumption].
  unfold no_byte in *. cbn [forallb_str]. now rewrite H.
Qed.

Lemma hex_no_space (id : string) :
  forallb_str is_lower_hex id = true -> no_byte space id.
Proof.
  apply forallb_str_impl. intros c Hc.
  destruct (Ascii.eqb c space) eqn:E; [|reflexivity].
  apply Ascii.eqb_eq in E. subst c. discriminate.
Qed.

Lemma header_fields (id : string) (ts : Z) :
  no_byte space id ->
  fields EmptyString ("1 " ++ id ++ " " ++ fmt_d ts ++ " 0") =
  ["1"; id; fmt_d ts; "0"].
Proof.
  intros Hid.
  change ("1 " ++ id ++ " " ++ fmt_d ts ++ " 0")
    with ("1" ++ String space (id ++ String space (fmt_d ts ++ String space "0"))).
  rewrite fields_field by reflexivity.
  rewrite (fields_field id) by assumption.
  rewrite (fields_field (fmt_d ts)) by apply fmt_d_no_space.
  rewrite fields_last by reflexivity. reflexivity.
Qed.

Section Header.
Variable w : Writer.
Variable p : RegexParser.
Variable rnd : RandSource.

(** X7: the header written for a converted line ends in a line feed and,
    cut at its spaces, has exactly four fields: 1, the 24-character
    hexadecimal identifier, the timestamp as a signed decimal numeral that
    reads back as the timestamp of the line, and 0. *)
Theorem X7_header_fields (st st' : State) (line : string) :
  body w p rnd st line = Continue st' ->
  processedCount st' <> processedCount st ->
  exists h id ts,
    nth (List.length (out st)) (out st') EmptyString = h ++ str1 LF /\
    fields EmptyString h = ["1"; id; ts; "0"] /\
    String.length id = 24%nat /\ forallb_str is_lower_hex id = true /\
    read_decimal ts = Some (timestampOf line).
Proof.
  intros Hb Hc.
  destruct (body_counted w p rnd st line st' Hb Hc)
    as (rl & g & _ & _ & _ & _ & _ & ->).
  exists ("1 " ++ reqID_of g ++ " " ++ fmt_d (timestampOf line) ++ " 0"),
         (reqID_of g), (fmt_d (timestampOf line)).
  cbn [out]. rewrite app_nth2 by lia. rewrite Nat.sub_diag.
  split; [|split; [|split; [|split]]].
  - cbn [record nth]. unfold header_line.
    rewrite <- !append_assoc. reflexivity.
  - apply header_fields, hex_no_space, reqID_of_hex.
  - apply reqID_of_length.
  - apply reqID_of_hex.
  - apply read_decimal_fmt_d.
Qed.

End Header.

(** ** The stream determines the records *)

Lemma append_inv_tail (a b c : string) : a ++ c = b ++ c -> a = b.
Proof.
  revert b; induction a as [|x a IH]; intros [|y b] H; cbn [append] in H.
  - reflexivity.
  - apply (f_equal String.length) in H. cbn [String.length] in H.
    rewrite length_append in H. lia.
  - apply (f_equal String.length) in H. cbn [String.length] in H.
    rewrite length_append in H. lia.
  - injection H as -> H. f_equal. now apply IH.
Qed.

Lemma split_at_byte (c : ascii) (a a' x x' : string) :
  no_byte c a -> no_byte c a' ->
  a ++ String c x = a' ++ String c x' -> a = a' /\ x = x'.
Proof.
  unfold no_byte.
  revert a'; induction a as [|y a IH]; intros [|y' a'] Ha Ha' H;
    cbn [append forallb_str] in *.
  - injection H as ->. now split.
  - injection H as <- _. rewrite Ascii.eqb_refl in Ha'. discriminate.
  - injection H as -> _. rewrite Ascii.eqb_refl in Ha. discriminate.
  - apply andb_true_iff in Ha as [_ Ha]. apply andb_true_iff in Ha' as [_ Ha'].
    injection H as -> H. destruct (IH _ Ha Ha' H) as [-> ->]. now split.
Qed.

Lemma header_inj (id id' : string) (ts ts' : Z) :
  no_byte space id -> no_byte space id' ->
  "1 " ++ id ++ " " ++ fmt_d ts ++ " 0" = "1 " ++ id' ++ " " ++ fmt_d ts' ++ " 0" ->
  id = id' /\ ts = ts'.
Proof.
  intros Hid Hid' H. cbn [append] in H. injection H as H.
  change (id ++ String space (fmt_d ts ++ String space "0") =
          id' ++ String space (fmt_d ts' ++ String space "0")) in H.
  apply split_at_byte in H as [-> H]; [|assumption|assumption].
  apply split_at_byte in H as [H _]; [|apply fmt_d_no_space|apply fmt_d_no_space].
  split; [reflexivity | now apply fmt_d_inj].
Qed.

Lemma hex_record_wf (r : string * Z * string) : hex_record r -> wf_record r.
Proof. destruct r as [[id ts] rl]. intros [Hid Hrl]. split; [now apply hex_no_LF | assumption]. Qed.

(** X8: the bytes of the output determine the records: two lists of
    records (hexadecimal identifier, timestamp, request line without line
    feed) whose writes concatenate to the same byte stream are the same
    list. *)
Theorem X8_stream_determines_records (recs1 recs2 : list (string * Z * string)) :
  Forall hex_record recs1 -> Forall hex_record recs2 ->
  stream (flat_map render recs1) = stream (flat_map render recs2) ->
  recs1 = recs2.
Proof.
  intros H1; revert recs2.
  induction H1 as [|[[id ts] rl] recs1 [Hid Hrl] H1 IH]; intros recs2 H2 E.
  - destruct H2 as [|[[id' ts'] rl'] recs2 _ _]; [reflexivity|].
    cbn [flat_map render] in E. rewrite stream_app in E.
    rewrite record_stream in E. discriminate E.
  - destruct H2 as [|[[id' ts'] rl'] recs2 [Hid' Hrl'] H2].
    + cbn [flat_map render] in E. rewrite stream_app in E.
      rewrite record_stream in E. discriminate E.
    + cbn [flat_map render] in E. rewrite !stream_app in E.
      pose proof (f_equal (lines_of EmptyString) E) as L.
      rewrite !lines_of_record in L by first [assumption | apply hex_no_LF; assumption].
      pose proof (f_equal (fun l => nth 0 l EmptyString) L) as Lh.
      pose proof (f_equal (fun l => nth 1 l EmptyString) L) as Lr.
      cbn [nth] in Lh, Lr. clear L.
      apply header_inj in Lh as [-> ->]; [|now apply hex_no_space|now apply hex_no_space].
      apply append_inv_tail in Lr. subst rl'.
      f_equal. apply IH; [assumption|].
      revert E. generalize (stream (record id' ts' rl)).
      intros s E. clear -E.
      induction s as [|c s IHs]; cbn [append] in E; [assumption|].
      injection E as E. now apply IHs.
Qed.

(** ** The timestamp pattern, completely *)

Lemma match_atoms_prefix pat s s' :
  match_atoms pat s = Some s' ->
  match_atoms pat (take (List.length pat) s) = Some EmptyString.
Proof.
  revert s; induction pat as [|a pat IH]; intros s; cbn [match_atoms List.length take].
  - intros _. now destruct s.
  - destruct s as [|x s]; [discriminate|].
    destruct (atom_ok a x) eqn:E; [|discriminate].
    intros H. now apply IH.
Qed.

Lemma timeAt_sound (s dt off rest : string) :
  timeAt s = Some (dt, off, rest) ->
  s = time_field dt off ++ rest /\ valid_time_field dt off.
Proof.
  unfold timeAt.
  destruct s as [|c0 s1]; [discriminate|].
  destruct (Ascii.eqb c0 lbracket) eqn:E0; [|discriminate].
  destruct (match_atoms datetime_atoms s1) as [[|c1 s3]|] eqn:M; try discriminate.
  destruct (Ascii.eqb c1 space) eqn:E1; [|discriminate].
  pose proof (span_app (cset_mem (CNot rbracket)) s3) as Happ.
  pose proof (span_all (cset_mem (CNot rbracket)) s3) as Hall.
  destruct (span (cset_mem (CNot rbracket)) s3) as [off0 s4]. cbn [fst snd] in *.
  destruct (is_empty off0) eqn:P; [discriminate|].
  destruct s4 as [|c2 rest0]; [discriminate|].
  destruct (Ascii.eqb c2 rbracket) eqn:E2; [|discriminate].
  intros H; injection H as <- -> ->.
  apply Ascii.eqb_eq in E0, E1, E2. subst c0 c1 c2.
  pose proof (match_atoms_take _ _ _ M) as Hs1.
  split.
  - rewrite Hs1 at 1. rewrite <- Happ.
    unfold time_field, sp, str1.
    repeat (progress (cbn [append]; rewrite ?append_assoc)). reflexivity.
  - split; [|split].
    + exact (match_atoms_prefix _ _ _ M).
    + now apply is_empty_false.
    + exact Hall.
Qed.

Lemma match_here_timeRe_None (t : string) :
  match_here (expr timeRe) t = None <->
  (forall dt off rest, t = time_field dt off ++ rest -> ~ valid_time_field dt off).
Proof.
  rewrite match_here_timeRe. split.
  - intros H dt off rest -> Hv. now rewrite (timeAt_field _ _ _ Hv) in H.
  - intros H. destruct (timeAt t) as [[[dt off] rest]|] eqn:E; [|reflexivity].
    apply timeAt_sound in E as [E Hv]. now elim (H _ _ _ E).
Qed.

(** X9: the timestamp pattern finds nothing exactly when no position of
    the line starts a bracketed time field (opening bracket, two digits,
    slash, three word bytes, slash, four digits, three times a colon and
    two digits, a space, a non-empty run of bytes other than the closing
    bracket, the closing bracket); the timestamp is then zero. *)
Theorem X9_no_time_field (line : string) :
  (FindStringSubmatch timeRe line = [] <-> ~ has_time_field line) /\
  (~ has_time_field line -> timestampOf line = 0).
Proof.
  assert (H : FindStringSubmatch timeRe line = [] <-> ~ has_time_field line).
  { unfold FindStringSubmatch, has_time_field.
    destruct (search (expr timeRe) line) as [[whole cs]|] eqn:E.
    - split; [discriminate|]. intros H. exfalso. apply H.
      apply search_Some in E as (pre & t & t' & Hs & Hm & _ & _).
      rewrite match_here_timeRe in Hm.
      destruct (timeAt t) as [[[dt off] rest]|] eqn:T; [|discriminate].
      apply timeAt_sound in T as [-> Hv]. now exists pre, dt, off, rest.
    - split; [|reflexivity]. intros _ (pre & dt & off & rest & Hs & Hv).
      rewrite search_None in E. specialize (E _ _ Hs).
      rewrite match_here_timeRe, (timeAt_field _ _ _ Hv) in E. discriminate. }
  split; [exact H|].
  intros Hn. apply H in Hn. unfold timestampOf. now rewrite Hn.
Qed.

(** X10: when a line holds bracketed time fields, the match is the first
    of them, whatever precedes it (other brackets included), and the
    timestamp is read from its date-time text alone: the offset and the
    rest of the line have no part in it. *)
Theorem X10_first_time_field (line pre dt off rest : string) :
  first_time_field line pre dt off rest ->
  FindStringSubmatch timeRe line = [time_field dt off; dt] /\
  timestampOf line = match parseUnixNano dt with Some t => t | None => 0 end.
Proof.
  intros (Hs & Hv & Hfirst).
  assert (H : FindStringSubmatch timeRe line = [time_field dt off; dt]).
  { unfold FindStringSubmatch.
    assert (E : search (expr timeRe) line = Some (time_field dt off, [(1%nat, dt)])).
    { apply search_Some. exists pre, (time_field dt off ++ rest), rest.
      split; [exact Hs|]. split; [|split].
      - now rewrite match_here_timeRe, (timeAt_field _ _ _ Hv).
      - now rewrite take_consumed.
      - intros pre1 t1 Hs1 Hlt. apply match_here_timeRe_None.
        intros dt1 off1 rest1 -> . exact (Hfirst _ _ _ _ Hs1 Hlt). }
    rewrite E. reflexivity. }
  split; [exact H|]. unfold timestampOf. now rewrite H.
Qed.

Lemma prefix_byte (c : ascii) (pre pre1 a b : string) :
  pre ++ a = pre1 ++ String c b ->
  (String.length pre1 < String.length pre)%nat ->
  contains c pre = true.
Proof.
  revert pre1; induction pre as [|x pre IH]; intros [|y pre1] E Hlt;
    cbn [String.length] in Hlt; try lia; cbn [append] in E; injection E as -> E;
    cbn [contains].
  - now rewrite Ascii.eqb_refl.
  - rewrite (IH pre1 E) by lia. apply orb_true_r.
Qed.

(** A time field that follows text without opening bracket is the first. *)
Lemma first_time_field_intro (pre dt off rest : string) :
  contains lbracket pre = false ->
  valid_time_field dt off ->
  first_time_field (pre ++ time_field dt off ++ rest) pre dt off rest.
Proof.
  intros Hpre Hv. split; [reflexivity|]. split; [assumption|].
  intros pre1 dt1 off1 rest1 E Hlt _.
  assert (Hb : exists b, time_field dt1 off1 ++ rest1 = String lbracket b)
    by (unfold time_field, str1; cbn [append]; eauto).
  destruct Hb as [b Hb]. rewrite Hb in E.
  rewrite (prefix_byte _ _ _ _ _ E Hlt) in Hpre. discriminate.
Qed.

(** ** Dates and times read back *)

Lemma digit_pair (d : Z) :
  0 <= d < 100 ->
  is_digit (digit_char (d / 10)) = true /\
  is_digit (digit_char (d mod 10)) = true /\
  digit_val (digit_char (d / 10)) * 10 + digit_val (digit_char (d mod 10)) = d.
Proof.
  intros H.
  assert (H1 : 0 <= d / 10 < 10) by (split; [apply Z.div_pos | apply Z.div_lt_upper_bound]; lia).
  assert (H2 : 0 <= d mod 10 < 10) by (apply Z.mod_pos_bound; lia).
  destruct (digit_char_spec _ H1) as [-> ->].
  destruct (digit_char_spec _ H2) as [-> ->].
  pose proof (Z.div_mod d 10). lia.
Qed.

Lemma getnum_two (d : Z) (rest : string) (fixed : bool) :
  0 <= d < 100 -> getnum (two d ++ rest) fixed = Some (d, rest).
Proof.
  intros H. destruct (digit_pair d H) as (H1 & H2 & Hv).
  unfold two, str1. cbn [append getnum]. now rewrite H1, H2, Hv.
Qed.

Lemma lookup_month (month : Z) (rest : string) :
  1 <= month <= 12 ->
  lookup shortMonthNames
         (nth (Z.to_nat (month - 1)) shortMonthNames EmptyString ++ rest)
  = Some (month - 1, rest).
Proof.
  intros H.
  assert (Hm : month = 1 \/ month = 2 \/ month = 3 \/ month = 4 \/ month = 5 \/
               month = 6 \/ month = 7 \/ month = 8 \/ month = 9 \/ month = 10 \/
               month = 11 \/ month = 12) by lia.
  repeat (destruct Hm as [-> | Hm]; [reflexivity|]). subst month. reflexivity.
Qed.

Lemma year_four (y : Z) (rest : string) :
  0 <= y < 10000 ->
  (4 <=? String.length (four y ++ rest))%nat && isDigit (four y ++ rest) 0 = true /\
  atoi_digits 0 (take 4 (four y ++ rest)) = Some y /\
  drop 4 (four y ++ rest) = rest.
Proof.
  intros H.
  assert (Ha : 0 <= y / 100 < 100)
    by (split; [apply Z.div_pos | apply Z.div_lt_upper_bound]; lia).
  assert (Hb : 0 <= y mod 100 < 100) by (apply Z.mod_pos_bound; lia).
  destruct (digit_pair _ Ha) as (A1 & A2 & Av).
  destruct (digit_pair _ Hb) as (B1 & B2 & Bv).
  unfold four, two, str1, isDigit.
  cbn [append String.length Nat.leb take drop String.get atoi_digits andb].
  rewrite A1, A2, B1, B2. repeat split.
  f_equal. pose proof (Z.div_mod y 100). lia.
Qed.

Lemma month_days (month : Z) :
  1 <= month <= 12 ->
  0 <= nth (Z.to_nat (month - 1)) daysBefore 0 <= 334.
Proof.
  intros H.
  assert (Hm : month = 1 \/ month = 2 \/ month = 3 \/ month = 4 \/ month = 5 \/
               month = 6 \/ month = 7 \/ month = 8 \/ month = 9 \/ month = 10 \/
               month = 11 \/ month = 12) by lia.
  repeat (destruct Hm as [-> | Hm]; [split; now vm_compute|]).
  subst month. split; now vm_compute.
Qed.

Lemma daysIn_le (month year : Z) : 1 <= month <= 12 -> daysIn month year <= 31.
Proof.
  intros H. unfold daysIn.
  destruct ((month =? 2) && isLeap year); [lia|].
  assert (Hm : month = 1 \/ month = 2 \/ month = 3 \/ month = 4 \/ month = 5 \/
               month = 6 \/ month = 7 \/ month = 8 \/ month = 9 \/ month = 10 \/
               month = 11 \/ month = 12) by lia.
  repeat (destruct Hm as [-> | Hm]; [now vm_compute|]).
  subst month. now vm_compute.
Qed.

Lemma unixSec_range (day month year hour min sec : Z) :
  1 <= month <= 12 -> 1678 <= year <= 2261 ->
  valid_date day month year hour min sec = true ->
  0 <= hour -> 0 <= min -> 0 <= sec ->
  - 2 ^ 63 <= unixSec year month day hour min sec * 1000000000 < 2 ^ 63 /\
  (1970 <= year -> 0 <= unixSec year month day hour min sec * 1000000000).
Proof.
  intros Hm Hy Hv Hh Hmi Hs. unfold valid_date in Hv.
  repeat (apply andb_true_iff in Hv as [Hv ?]).
  apply Z.leb_le in Hv.
  repeat match goal with
         | H : (_ <=? _) = true |- _ => apply Z.leb_le in H
         | H : (_ <? _) = true |- _ => apply Z.ltb_lt in H
         end.
  pose proof (month_days month Hm) as Hb.
  pose proof (daysIn_le month year Hm) as Hd.
  unfold unixSec, daysSinceEpoch.
  set (mb := nth (Z.to_nat (month - 1)) daysBefore 0) in *.
  set (lp := if isLeap year && (3 <=? month) then 1 else 0).
  assert (Hl : 0 <= lp <= 1) by (unfold lp; destruct (isLeap year && (3 <=? month)); lia).
  change (1969 / 4 - 1969 / 100 + 1969 / 400) with 477.
  change (2 ^ 63) with 9223372036854775808.
  pose proof (Z.div_mod (year - 1) 4 ltac:(lia)).
  pose proof (Z.mod_pos_bound (year - 1) 4 ltac:(lia)).
  pose proof (Z.div_mod (year - 1) 100 ltac:(lia)).
  pose proof (Z.mod_pos_bound (year - 1) 100 ltac:(lia)).
  pose proof (Z.div_mod (year - 1) 400 ltac:(lia)).
  pose proof (Z.mod_pos_bound (year - 1) 400 ltac:(lia)).
  split; [|intros Hy']; lia.
Qed.

Lemma match_atoms_cat (pat1 pat2 : list atom) (s1 s2 : string) :
  match_atoms pat1 s1 = Some EmptyString ->
  match_atoms (pat1 ++ pat2) (s1 ++ s2) = match_atoms pat2 s2.
Proof.
  revert s1; induction pat1 as [|a pat1 IH]; intros s1; cbn [match_atoms app].
  - intros H; injection H as ->. reflexivity.
  - destruct s1 as [|x s1]; [discriminate|]. cbn [append].
    destruct (atom_ok a x); [apply IH | discriminate].
Qed.

Lemma two_atoms (d : Z) :
  0 <= d < 100 -> match_atoms [ASet CDigit; ASet CDigit] (two d) = Some EmptyString.
Proof.
  intros H. destruct (digit_pair d H) as (H1 & H2 & _).
  unfold two, str1. cbn [match_atoms atom_ok cset_mem]. now rewrite H1, H2.
Qed.

Lemma four_atoms (y : Z) :
  0 <= y < 10000 ->
  match_atoms [ASet CDigit; ASet CDigit; ASet CDigit; ASet CDigit] (four y)
  = Some EmptyString.
Proof.
  intros H. unfold four.
  change [ASet CDigit; ASet CDigit; ASet CDigit; ASet CDigit]
    with ([ASet CDigit; ASet CDigit] ++ [ASet CDigit; ASet CDigit])%list.
  rewrite match_atoms_cat; apply two_atoms.
  - apply Z.mod_pos_bound; lia.
  - split; [apply Z.div_pos | apply Z.div_lt_upper_bound]; lia.
Qed.

Lemma month_atoms (month : Z) :
  1 <= month <= 12 ->
  match_atoms [ASet CWord; ASet CWord; ASet CWord]
              (nth (Z.to_nat (month - 1)) shortMonthNames EmptyString)
  = Some EmptyString.
Proof.
  intros H.
  assert (Hm : month = 1 \/ month = 2 \/ month = 3 \/ month = 4 \/ month = 5 \/
               month = 6 \/ month = 7 \/ month = 8 \/ month = 9 \/ month = 10 \/
               month = 11 \/ month = 12) by lia.
  repeat (destruct Hm as [-> | Hm]; [reflexivity|]). subst month. reflexivity.
Qed.

Lemma datetime_text_atoms (day month year hour min sec : Z) :
  0 <= day < 100 -> 1 <= month <= 12 -> 0 <= year < 10000 ->
  0 <= hour < 100 -> 0 <= min < 100 -> 0 <= sec < 100 ->
  match_atoms datetime_atoms (datetime_text day month year hour min sec)
  = Some EmptyString.
Proof.
  intros Hd Hm Hy Hh Hmi Hs.
  set (d := ASet CDigit). set (w := ASet CWord).
  change datetime_atoms
    with ([d; d] ++ [AChar "/"] ++ [w; w; w] ++ [AChar "/"] ++ [d; d; d; d] ++
          [AChar ":"] ++ [d; d] ++ [AChar ":"] ++ [d; d] ++ [AChar ":"] ++
          [d; d] ++ [])%list.
  unfold datetime_text. rewrite <- (append_nil_r (two sec)).
  repeat first
    [ rewrite (match_atoms_cat [d; d]) by (now apply two_atoms)
    | rewrite (match_atoms_cat [d; d; d; d]) by (now apply four_atoms)
    | rewrite (match_atoms_cat [w; w; w]) by (now apply month_atoms)
    | rewrite (match_atoms_cat [AChar "/"] _ "/") by reflexivity
    | rewrite (match_atoms_cat [AChar ":"] _ ":") by reflexivity ].
  reflexivity.
Qed.

Lemma parse_datetime_text (day month year hour min sec : Z) :
  0 <= day < 100 -> 1 <= month <= 12 -> 0 <= year < 10000 ->
  0 <= hour < 100 -> 0 <= min < 100 -> 0 <= sec < 100 ->
  parseUnixNano (datetime_text day month year hour min sec)
  = if valid_date day month year hour min sec
    then Some (wrap64 (unixSec year month day hour min sec * 1000000000))
    else None.
Proof.
  intros Hd Hm Hy Hh Hmi Hs.
  unfold parseUnixNano, datetime_text.
  rewrite (getnum_two day) by assumption. cbn [bind append skip].
  rewrite Ascii.eqb_refl. cbn [bind].
  rewrite lookup_month by assumption. cbn [bind append skip].
  rewrite Ascii.eqb_refl. cbn [bind].
  destruct (year_four year (String ":" (two hour ++ String ":" (two min ++ String ":" (two sec)))) Hy)
    as (G & A & D).
  rewrite G, A, D. cbn [guard bind skip]. rewrite Ascii.eqb_refl. cbn [bind].
  rewrite (getnum_two hour) by assumption. cbn [bind].
  replace (month - 1 + 1) with month by lia.
  unfold valid_date, in_range.
  rewrite (proj2 (Z.leb_le 0 hour)) by lia. cbn [andb].
  destruct (hour <? 24); cbn [guard bind skip];
    [|rewrite ?andb_false_r, ?andb_false_l; reflexivity].
  rewrite Ascii.eqb_refl. cbn [bind].
  rewrite (getnum_two min) by assumption. cbn [bind].
  rewrite (proj2 (Z.leb_le 0 min)) by lia. cbn [andb].
  destruct (min <? 60); cbn [guard bind skip];
    [|rewrite ?andb_false_r, ?andb_false_l; reflexivity].
  rewrite Ascii.eqb_refl. cbn [bind].
  rewrite <- (append_nil_r (two sec)).
  rewrite (getnum_two sec) by assumption. cbn [bind].
  rewrite (proj2 (Z.leb_le 0 sec)) by lia. cbn [andb].
  destruct (sec <? 60); cbn [guard bind is_empty];
    [|rewrite ?andb_false_r, ?andb_false_l; reflexivity].
  rewrite !andb_true_r.
  destruct ((1 <=? day) && (day <=? daysIn month year)); reflexivity.
Qed.

(** X11: for a time field dd/Mon/yyyy:HH:MM:SS with an English short month
    name, the timestamp is the number of nanoseconds from 1970-01-01
    00:00:00 UTC to that date and time read as UTC, reduced to 64 bits,
    when the day exists in that month and year, the hour is below 24 and
    the minute and second below 60, and zero otherwise.  For the years
    1678 to 2261 the 64 bits hold the number exactly, and from 1970 on it
    is not negative. *)
Theorem X11_timestamp_value (pre off rest : string)
        (day month year hour min sec : Z) :
  contains lbracket pre = false ->
  off <> EmptyString -> no_byte rbracket off ->
  0 <= day < 100 -> 1 <= month <= 12 -> 0 <= year < 10000 ->
  0 <= hour < 100 -> 0 <= min < 100 -> 0 <= sec < 100 ->
  let line := pre ++ time_field (datetime_text day month year hour min sec) off ++ rest in
  let nanos := unixSec year month day hour min sec * 1000000000 in
  timestampOf line
  = (if valid_date day month year hour min sec then wrap64 nanos else 0) /\
  (valid_date day month year hour min sec = true -> 1678 <= year <= 2261 ->
   timestampOf line = nanos /\ (1970 <= year -> 0 <= nanos)).
Proof.
  intros Hpre Hoff Hrun Hd Hm Hy Hh Hmi Hs line nanos.
  assert (E : timestampOf line
              = if valid_date day month year hour min sec then wrap64 nanos else 0).
  { unfold line. rewrite timestampOf_field; [|assumption|].
    - rewrite parse_datetime_text by assumption.
      now destruct (valid_date day month year hour min sec).
    - split; [now apply datetime_text_atoms | now split]. }
  split; [exact E|].
  intros Hv Hyr. rewrite E, Hv.
  destruct (unixSec_range day month year hour min sec Hm Hyr Hv) as [Hr Hp]; try lia.
  split; [now apply wrap64_small | exact Hp].
Qed.

Section HexRecords.
Variable w : Writer.
Variable p : RegexParser.
Variable rnd : RandSource.

Lemma loop_hex_records (lines : list string) :
  Forall (no_byte LF) lines ->
  forall st recs,
    out st = flat_map render recs ->
    processedCount st = wrap64 (Z.of_nat (List.length recs)) ->
    Forall hex_record recs ->
    match loop w p rnd st lines with
    | Continue st' =>
        exists recs',
          Forall hex_record recs' /\
          out st' = flat_map render recs' /\
          processedCount st' = wrap64 (Z.of_nat (List.length recs'))
    | Return _ _ => True
    end.
Proof.
  induction 1 as [|line lines Hline Hlines IH]; intros st recs Hout Hcnt Hwf.
  - cbn [loop]. eauto.
  - cbn [loop].
    pose proof (body_iteration w p rnd st line) as Hi.
    destruct (body w p rnd st line) as [st1|st1 e1]; [|exact I].
    inversion Hi as [ | | | rl e _ _ _ _ | | rl g _ _ Hrl _ _ ]; subst.
    + apply (IH st1 recs); auto.
    + apply (IH st1 recs); auto.
    + apply (IH st1 recs); auto.
    + apply (IH _ recs); auto.
    + apply (IH _ (recs ++ [(reqID_of g, timestampOf line, rl)])%list).
      * cbn [out]. rewrite flat_map_app, Hout. cbn [flat_map render].
        now rewrite app_nil_r.
      * cbn [processedCount]. rewrite Hcnt, length_app. cbn [List.length].
        rewrite wrap64_add_l. f_equal. lia.
      * apply Forall_app. split; [assumption|]. constructor; [|constructor].
        split; [apply reqID_of_hex|].
        eapply requestLine_no_LF; eauto.
Qed.

Lemma processLogs_hex_records (r : Reader) :
  let o := processLogs w p rnd r in
  err o = None ->
  exists recs,
    Forall hex_record recs /\
    out (final o) = flat_map render recs /\
    count o = wrap64 (Z.of_nat (List.length recs)).
Proof.
  intros o. subst o. unfold processLogs, run.
  pose proof (loop_hex_records (tokens (NewScanner r)) (tokens_no_LF r) init []
                eq_refl eq_refl (Forall_nil _)) as H.
  destruct (loop w p rnd init (tokens (NewScanner r))) as [st|st e];
    [|discriminate].
  destruct (Err (NewScanner r)); [discriminate|].
  cbn [err out final count]. intros _. exact H.
Qed.

End HexRecords.

(** ** The program *)

(** X12: a run of main that ends with status 0 opened the input, created
    the output, wrote whole records only, logged their number in the
    success message (the number of delimiter lines of the output file),
    then the name of the output file, and closed both files. *)
Theorem X12_main_success (sys : System) (prog input output : string) :
  exit_status (main sys [prog; input; output]) = Some 0 ->
  exists recs,
    Forall hex_record recs /\
    delimiter_lines (stream (flat_map render recs)) = List.length recs /\
    main sys [prog; input; output] =
    [EvLog ("Starting conversion from " ++ input ++ " to " ++ output);
     EvOpen input; EvCreate output;
     EvWrite (flat_map render recs);
     EvLog ("✅ Success! Converted " ++
            fmt_d (wrap64 (Z.of_nat (List.length recs))) ++ " log entries.");
     EvLog ("Output saved to " ++ output);
     EvClose output; EvClose input; EvExit 0].
Proof.
  unfold main.
  destruct (Open sys input); [discriminate|].
  destruct (Create sys output); [discriminate|].
  pose proof (processLogs_hex_records (file_writer sys output)
                (NewApacheCLFRegexParser sys) (Rand sys)
                (contents sys input output)) as H.
  cbv zeta in H |- *.
  destruct (err (processLogs _ _ _ _)); [discriminate|].
  intros _. destruct (H eq_refl) as (recs & Hhex & Hout & Hcnt).
  exists recs. split; [assumption|]. split.
  - apply delimiter_lines_records.
    eapply Forall_impl; [|exact Hhex]. intros r. apply hex_record_wf.
  - now rewrite Hout, Hcnt.
Qed.

(** X13: main exits with status 0 exactly when it is given two arguments,
    both files open and processLogs returns no error, and with status 1
    otherwise.  The output file is created exactly when there are two
    arguments and the input file opens, so a missing input leaves an
    existing output file untouched, and nothing is written to a file that
    was not created. *)
Theorem X13_main_outcomes (sys : System) (Args : list string) :
  let tr := main sys Args in
  let ok := exists prog input output,
              Args = [prog; input; output] /\
              Open sys input = None /\ Create sys output = None /\
              err (processLogs (file_writer sys output)
                               (NewApacheCLFRegexParser sys) (Rand sys)
                               (contents sys input output)) = None in
  (exit_status tr = Some 0 <-> ok) /\
  (exit_status tr = Some 1 <-> ~ ok) /\
  (forall name,
     In (EvCreate name) tr <->
     exists prog input,
       Args = [prog; input; name] /\
       Open sys input = None /\ Create sys name = None) /\
  (forall chunks, In (EvWrite chunks) tr -> exists name, In (EvCreate name) tr).
Proof.
  intros tr ok. subst tr ok.
  destruct Args as [|prog [|input [|output [|x Args]]]];
    try (cbn [main exit_status last];
         split; [split; [discriminate | intros (pr & i & o & E & _); discriminate E]|];
         split; [split; [intros _ (pr & i & o & E & _); discriminate E | reflexivity]|];
         split; [intros name; split;
                 [intros [E|[E|[E|[]]]]; discriminate E
                 |intros (pr & i & E & _); discriminate E]|];
         intros chunks [E|[E|[E|[]]]]; discriminate E).
  unfold main.
  destruct (Open sys input) as [e|] eqn:HO.
  { cbn [exit_status last].
    split; [split; [discriminate|]|].
    { intros (pr & i & o & E & HO' & _). injection E as -> -> ->. congruence. }
    split; [split; [|reflexivity]|].
    { intros _ (pr & i & o & E & HO' & _). injection E as -> -> ->. congruence. }
    split; [intros name; split|].
    - intros [E|[E|[E|[]]]]; discriminate E.
    - intros (pr & i & E & HO' & _). injection E as -> -> ->. congruence.
    - intros chunks [E|[E|[E|[]]]]; discriminate E. }
  destruct (Create sys output) as [e|] eqn:HC.
  { cbn [exit_status last].
    split; [split; [discriminate|]|].
    { intros (pr & i & o & E & _ & HC' & _). injection E as -> -> ->. congruence. }
    split; [split; [|reflexivity]|].
    { intros _ (pr & i & o & E & _ & HC' & _). injection E as -> -> ->. congruence. }
    split; [intros name; split|].
    - intros [E|[E|[E|[E|[]]]]]; discriminate E.
    - intros (pr & i & E & _ & HC'). injection E as -> -> ->. congruence.
    - intros chunks [E|[E|[E|[E|[]]]]]; discriminate E. }
  cbv zeta.
  destruct (err (processLogs _ _ _ _)) as [e|] eqn:HE.
  - cbn [exit_status last].
    split; [split; [discriminate|]|].
    { intros (pr & i & o & E & _ & _ & HE'). injection E as -> -> ->. congruence. }
    split; [split; [|reflexivity]|].
    { intros _ (pr & i & o & E & _ & _ & HE'). injection E as -> -> ->. congruence. }
    split; [intros name; split|].
    + intros [E|[E|[E|[E|[E|[E|[]]]]]]]; try discriminate E.
      injection E as ->. now exists prog, input.
    + intros (pr & i & E & _). injection E as -> -> ->. cbn [In]. auto.
    + intros chunks _. exists output. cbn [In]. auto.
  - cbn [exit_status last].
    split; [split; [intros _; now exists prog, input, output | reflexivity]|].
    split; [split; [discriminate|]|].
    { intros H. exfalso. apply H. now exists prog, input, output. }
    split; [intros name; split|].
    + intros [E|[E|[E|[E|[E|[E|[E|[E|[E|[]]]]]]]]]]; try discriminate E.
      injection E as ->. now exists prog, input.
    + intros (pr & i & E & _). injection E as -> -> ->. cbn [In]. auto.
    + intros chunks _. exists output. cbn [In]. auto.
Qed.

(** ** Instances of the further properties *)

Lemma bad_day_plain : plain_line bad_day_line.
Proof.
  split; [reflexivity|]. split; [discriminate|].
  apply Nat.ltb_lt. vm_compute. reflexivity.
Defined.

Lemma X3_witness :
  let o1 := processLogs okWriter okParser okRand
              (mkReader (unlines (str1 LF) [sample_line]) None) in
  let o := processLogs okWriter okParser okRand
             (mkReader (unlines (str1 LF) [sample_line] ++ bad_day_line) None) in
  let o2 := processLogs (shift okWriter (List.length (out (final o1)))) okParser
                        (shift okRand (rand_calls (final o1)))
                        (mkReader bad_day_line None) in
  err o1 = None /\
  out (final o) = (out (final o1) ++ out (final o2))%list /\
  count o = wrap64 (count o1 + count o2).
Proof.
  intros o1 o o2.
  assert (He : err o1 = None) by (vm_compute; reflexivity).
  split; [exact He|].
  destruct (X3_concatenation okWriter okParser okRand (str1 LF) [sample_line]
              bad_day_line None (or_introl eq_refl)
              (Forall_cons _ sample_plain (Forall_nil _)) He)
    as (H1 & H2 & _).
  split; [exact H1 | exact H2].
Defined.

Lemma X1_witness :
  let r := mkReader (sample_line ++ str1 LF ++ "-- log rotated --" ++ str1 LF
                     ++ bad_day_line) None in
  let o := processLogs okWriter okParser badRand r in
  (forall i, okWriter i = None) /\
  out (final o)
  = flat_map render
      (records_of badRand 0 (filter (eligible okParser) (tokens (NewScanner r)))) /\
  rand_calls (final o) = 2%nat.
Proof.
  intros r o.
  destruct (X1_no_write_failure okWriter okParser badRand r (fun _ => eq_refl))
    as (H1 & _ & H3 & _).
  split; [exact (fun _ => eq_refl)|]. split; [exact H1|].
  fold o in H3. rewrite H3. vm_compute. reflexivity.
Defined.

Lemma X4_witness :
  Forall plain_line [sample_line; bad_day_line] /\
  processLogs okWriter okParser okRand
    (mkReader (unlines CRLF [sample_line; bad_day_line]) None)
  = processLogs okWriter okParser okRand
      (mkReader (unlines (str1 LF) [sample_line; bad_day_line]) None).
Proof.
  assert (H : Forall plain_line [sample_line; bad_day_line])
    by (constructor; [exact sample_plain | constructor; [exact bad_day_plain | constructor]]).
  split; [exact H|].
  exact (proj2 (proj2 (X4_line_endings okWriter okParser okRand _ None H))).
Defined.

Lemma X5_witness :
  let long := replicate MaxScanTokenSize "a" in
  let o := processLogs okWriter okParser okRand
             (mkReader (unlines (str1 LF) [sample_line] ++ long ++ str1 LF) None) in
  (MaxScanTokenSize <= String.length long)%nat /\
  option_map Error (err o)
  = Some "error reading input file: bufio.Scanner: token too long" /\
  count o = 1.
Proof.
  intros long o.
  assert (Hlen : (MaxScanTokenSize <= String.length long)%nat)
    by (unfold long; rewrite replicate_length; apply Nat.le_refl).
  split; [exact Hlen|].
  destruct (X5_overlong_line okWriter okParser okRand [sample_line] long (str1 LF) None
              (Forall_cons _ sample_plain (Forall_nil _))
              (replicate_no_byte MaxScanTokenSize "a"%char LF ltac:(discriminate)) Hlen (fun _ => eq_refl))
    as (H1 & _ & H3 & _).
  split; [exact H1|]. fold o in H3. rewrite H3. vm_compute. reflexivity.
Defined.

Lemma X7_witness :
  body okWriter okParser okRand init sample_line
  = Continue (mkState 1 (sample_record g0) 1) /\
  exists h id ts,
    nth 0 (sample_record g0) EmptyString = h ++ str1 LF /\
    fields EmptyString h = ["1"; id; ts; "0"] /\
    read_decimal ts = Some 1759321811000000000.
Proof.
  assert (Hb : body okWriter okParser okRand init sample_line
               = Continue (mkState 1 (sample_record g0) 1))
    by (vm_compute; reflexivity).
  split; [exact Hb|].
  destruct (X7_header_fields okWriter okParser okRand init _ sample_line Hb
              ltac:(discriminate))
    as (h & id & ts & H1 & H2 & _ & _ & H5).
  exists h, id, ts. split; [exact H1|]. split; [exact H2|].
  rewrite H5. vm_compute. reflexivity.
Defined.

Lemma X8_witness :
  let r1 := (reqID_of g0, 1759321811000000000, "GET /api/v1/users HTTP/1.1") in
  let r2 := (reqID_of g1, 0, "GET / HTTP/1.1") in
  Forall hex_record [r1; r2] /\
  (forall recs, Forall hex_record recs ->
                stream (flat_map render recs) = stream (flat_map render [r1; r2]) ->
                recs = [r1; r2]).
Proof.
  intros r1 r2.
  assert (H : Forall hex_record [r1; r2]).
  { constructor; [split; [apply reqID_of_hex | reflexivity]|].
    constructor; [split; [apply reqID_of_hex | reflexivity]|]. constructor. }
  split; [exact H|].
  intros recs Hr E. exact (X8_stream_determines_records recs [r1; r2] Hr H E).
Defined.

Lemma X10_witness :
  first_time_field (sample_with_offset "-0700") "127.0.0.1 - - "
                   "01/Oct/2025:12:30:11" "-0700"
                   (" " ++ q ++ "GET /api/v1/users HTTP/1.1" ++ q ++ " 200 512 " ++
                    q ++ "-" ++ q ++ " " ++ q ++ "curl/8.0" ++ q) /\
  timestampOf (sample_with_offset "-0700") = 1759321811000000000.
Proof.
  assert (H : first_time_field (sample_with_offset "-0700") "127.0.0.1 - - "
                "01/Oct/2025:12:30:11" "-0700"
                (" " ++ q ++ "GET /api/v1/users HTTP/1.1" ++ q ++ " 200 512 " ++
                 q ++ "-" ++ q ++ " " ++ q ++ "curl/8.0" ++ q)).
  { apply (first_time_field_intro "127.0.0.1 - - "); [reflexivity|].
    split; [reflexivity|]. split; [discriminate | reflexivity]. }
  split; [exact H|].
  rewrite (proj2 (X10_first_time_field _ _ _ _ _ H)). vm_compute. reflexivity.
Defined.

Lemma X11_witness :
  timestampOf ("127.0.0.1 - - " ++
               time_field (datetime_text 1 10 2025 12 30 11) "+0000" ++ " -")
  = 1759321811000000000 /\
  timestampOf ("127.0.0.1 - - " ++
               time_field (datetime_text 31 2 2025 12 30 11) "+0000" ++ " -")
  = 0.
Proof.
  split.
  - destruct (X11_timestamp_value "127.0.0.1 - - " "+0000" " -" 1 10 2025 12 30 11
                eq_refl ltac:(discriminate) eq_refl
                ltac:(lia) ltac:(lia) ltac:(lia) ltac:(lia) ltac:(lia) ltac:(lia))
      as [_ H].
    destruct (H eq_refl ltac:(lia)) as [-> _]. reflexivity.
  - destruct (X11_timestamp_value "127.0.0.1 - - " "+0000" " -" 31 2 2025 12 30 11
                eq_refl ltac:(discriminate) eq_refl
                ltac:(lia) ltac:(lia) ltac:(lia) ltac:(lia) ltac:(lia) ltac:(lia))
      as [-> _].
    reflexivity.
Defined.

Lemma X12_witness :
  let tr := main sample_system ["log-to-gor"; "access.log"; "requests.gor"] in
  exit_status tr = Some 0 /\
  exists recs,
    List.length recs = 1%nat /\
    In (EvWrite (flat_map render recs)) tr /\
    In (EvLog "✅ Success! Converted 1 log entries.") tr.
Proof.
  intros tr.
  assert (H : exit_status tr = Some 0) by (vm_compute; reflexivity).
  split; [exact H|].
  destruct (X12_main_success sample_system "log-to-gor" "access.log" "requests.gor" H) as (recs & _ & Hd & Htr).
  exists recs.
  assert (Hlen : List.length recs = 1%nat).
  { assert (E : nth 3 tr (EvExit 0) = EvWrite (flat_map render recs))
      by (unfold tr; rewrite Htr; reflexivity).
    rewrite <- Hd.
    assert (E' : nth 3 tr (EvExit 0) = EvWrite (sample_record g0))
      by (vm_compute; reflexivity).
    rewrite E' in E. injection E as <-. vm_compute. reflexivity. }
  split; [exact Hlen|]. unfold tr. rewrite Htr, Hlen. cbn [In]. split.
  - right; right; right; left. reflexivity.
  - right; right; right; right; left. reflexivity.
Defined.
